(** * rpc-maas: the documentation extractor [maas_checks_util.py]

    A shallow embedding of [doc/utils/maas_checks_util.py]: the
    [SilentUndefined] sentinel, the [RemappingLoader] key recovery, the
    undeclared-variable resolver [_get_check_details], the criteria parser
    [_get_criteria] and the driver [check_details].

    Python text is modelled as [string], read as a sequence of code points
    below 256, with the semantics of Python 3; Python integers are [Z].
    The libraries the module calls are not part of the repository. The
    matcher of [re] and the constructor of PyYAML, which decide what the
    criteria parser and the loader return, are modelled on their
    behaviour; the YAML composer and the template engine are the classes
    [PyYAML] and [Jinja2] of functions the development is generic in. *)

From Stdlib Require Import ZArith Ascii String List Bool Lia.
From stdpp Require Import gmap strings list fin_maps.

Set Warnings "-register-all,-clear-no-such-hyp".

Local Open Scope string_scope.
Local Open Scope Z_scope.

(** ** Python string primitives *)

Module PyStr.

Definition len (s : string) : Z := Z.of_nat (String.length s).

(** A slice bound of [s[lo:hi]]: negative bounds count from the end and
    every bound is clamped to [0, len]. *)
Definition clamp (n i : Z) : Z :=
  if i <? 0 then Z.max 0 (n + i) else Z.min i n.

(** [s[lo:hi]]; [None] is an omitted bound. *)
Definition slice (s : string) (lo hi : option Z) : string :=
  let n := len s in
  let a := match lo with None => 0 | Some i => clamp n i end in
  let b := match hi with None => n | Some j => clamp n j end in
  substring (Z.to_nat a) (Z.to_nat (b - a)) s.

(** [s.startswith(p)] *)
Definition startswith (s p : string) : bool := String.prefix p s.

Fixpoint find_from (sub s : string) (i : Z) : Z :=
  if String.prefix sub s then i
  else match s with
       | EmptyString => -1
       | String _ s' => find_from sub s' (i + 1)
       end.

(** [s.find(sub)]: the lowest index of [sub] in [s], [-1] when absent. *)
Definition find (s sub : string) : Z := find_from sub s 0.

(** [c.isspace()] on the code points below 256. *)
Definition isspace (c : ascii) : bool :=
  let n := N_of_ascii c in
  (((9 <=? n) && (n <=? 13)) || ((28 <=? n) && (n <=? 32))
   || (n =? 133) || (n =? 160))%N.

Fixpoint lstrip (s : string) : string :=
  match s with
  | String c s' => if isspace c then lstrip s' else s
  | EmptyString => EmptyString
  end.

Fixpoint rstrip (s : string) : string :=
  match s with
  | String c s' =>
      match rstrip s' with
      | EmptyString => if isspace c then EmptyString else String c EmptyString
      | r => String c r
      end
  | EmptyString => EmptyString
  end.

(** [s.strip()] *)
Definition strip (s : string) : string := rstrip (lstrip s).

(** [s.split(sep)] for a one-character separator: never empty, one empty
    item on the empty string. *)
Fixpoint split (s : string) (sep : ascii) : list string :=
  match s with
  | EmptyString => [EmptyString]
  | String c s' =>
      if Ascii.eqb c sep then EmptyString :: split s' sep
      else match split s' sep with
           | l :: ls => String c l :: ls
           | [] => [String c EmptyString]
           end
  end.

(** [sep.join(ls)] for a one-character separator. *)
Fixpoint join (sep : ascii) (ls : list string) : string :=
  match ls with
  | [] => EmptyString
  | [l] => l
  | l :: ls' => l ++ String sep (join sep ls')
  end.

(** [sep.join(ls)] *)
Fixpoint join_str (sep : string) (ls : list string) : string :=
  match ls with
  | [] => EmptyString
  | [l] => l
  | l :: ls' => l ++ sep ++ join_str sep ls'
  end.

(** The double quote character. *)
Definition dquote : ascii := "034"%char.

(** [s] between two double quote characters. *)
Definition quoted (s : string) : string :=
  String dquote (s ++ String dquote EmptyString).

(** [c in s] for a character. *)
Fixpoint contains (s : string) (c : ascii) : bool :=
  match s with
  | EmptyString => false
  | String a s' => Ascii.eqb a c || contains s' c
  end.

End PyStr.

(** ** [SilentUndefined] *)

Module SilentUndefined.

(** The one field of [jinja2.Undefined] the subclass reads. *)
Record t := Make { _undefined_name : string }.

(** ["{{ %s }}" % name] *)
Definition expression (name : string) : string := "{{ " ++ name ++ " }}".

Definition __str__ (self : t) : string := expression (_undefined_name self).

(** [_return_name(self, *args, **kwargs)]: the arguments are dropped. *)
Definition _return_name {A : Type} (self : t) (args : A) : string :=
  _undefined_name self.

Definition __getitem__ {A : Type} (self : t) (key : A) : string :=
  _return_name self key.

Definition __getattr__ (self : t) (attr : string) : string :=
  _return_name self attr.

Definition __truediv__ {A : Type} (self : t) (value : A) : string :=
  expression (_undefined_name self).

End SilentUndefined.

(** ** Regular expressions, as the backtracking matcher of [re] runs them *)

Module Re.

Inductive regex : Type :=
| Chr (c : ascii)                (* an escaped literal such as [\(] *)
| NoneOf (cs : list ascii)       (* a negated class such as [[^()]] *)
| Cat (r1 r2 : regex)
| Alt (r1 r2 : regex)            (* [r1|r2], left alternative first *)
| Star (r : regex).              (* greedy [r*] *)

Section StarLoop.
(** How one iteration of a starred group runs, and what follows the
    group. *)
Variable body : string -> (string -> option string) -> option string.
Variable k : string -> option string.

(** A greedy repetition: one more iteration first, then what follows.
    An iteration that consumes nothing ends the repetition, so [fuel]
    at the length of the text is never used up before the text is. *)
Fixpoint star_loop (fuel : nat) (s : string) {struct fuel}
  : option string :=
  match fuel with
  | O => k s
  | S fuel' =>
      match body s (fun s' => if (String.length s' <? String.length s)%nat
                              then star_loop fuel' s' else None) with
      | Some x => Some x
      | None => k s
      end
  end.
End StarLoop.

(** [re_match r s k] tries the ways [r] can consume a prefix of [s] in
    the matcher's priority order and passes what is left to [k]; the
    first way [k] accepts wins. *)
Fixpoint re_match (r : regex) (s : string) (k : string -> option string)
  {struct r} : option string :=
  match r with
  | Chr c =>
      match s with
      | String a s' => if Ascii.eqb a c then k s' else None
      | EmptyString => None
      end
  | NoneOf cs =>
      match s with
      | String a s' => if existsb (Ascii.eqb a) cs then None else k s'
      | EmptyString => None
      end
  | Cat r1 r2 => re_match r1 s (fun s' => re_match r2 s' k)
  | Alt r1 r2 =>
      match re_match r1 s k with
      | Some x => Some x
      | None => re_match r2 s k
      end
  | Star r' => star_loop (re_match r') k (String.length s) s
  end.

(** A match object: where group 0 starts and its text. *)
Record match_object := MatchObject { start : nat; group0 : string }.

(** [r.match(s)] anchored at the head of [s]: the text of group 0. *)
Definition match_here (r : regex) (s : string) : option string :=
  match re_match r s Some with
  | Some rest =>
      Some (substring 0 (String.length s - String.length rest) s)
  | None => None
  end.

Fixpoint search_from (r : regex) (s : string) (pos : nat)
  : option match_object :=
  match match_here r s with
  | Some g => Some (MatchObject pos g)
  | None =>
      match s with
      | EmptyString => None
      | String _ s' => search_from r s' (S pos)
      end
  end.

(** [r.search(s)]: the match at the leftmost position that has one. *)
Definition search (r : regex) (s : string) : option match_object :=
  search_from r s 0.

(** The language of a regular expression. *)
Inductive matches : regex -> string -> Prop :=
| MChr c : matches (Chr c) (String c EmptyString)
| MNoneOf cs a :
    existsb (Ascii.eqb a) cs = false ->
    matches (NoneOf cs) (String a EmptyString)
| MCat r1 r2 s1 s2 :
    matches r1 s1 -> matches r2 s2 -> matches (Cat r1 r2) (s1 ++ s2)
| MAltL r1 r2 s : matches r1 s -> matches (Alt r1 r2) s
| MAltR r1 r2 s : matches r2 s -> matches (Alt r1 r2) s
| MStarNil r : matches (Star r) EmptyString
| MStarApp r s1 s2 :
    matches r s1 -> matches (Star r) s2 -> matches (Star r) (s1 ++ s2).

End Re.

(** ** The criteria mini-language *)

(** [CRITERIA = re.compile("\\(([^()]*|\\([^()]*\\))*\\)")] *)
Definition parens : list ascii := ["("%char; ")"%char].

Definition CRITERIA : Re.regex :=
  Re.Cat (Re.Chr "(")
    (Re.Cat
       (Re.Star
          (Re.Alt (Re.Star (Re.NoneOf parens))
             (Re.Cat (Re.Chr "(")
                (Re.Cat (Re.Star (Re.NoneOf parens)) (Re.Chr ")")))))
       (Re.Chr ")")).

(** One yielded dictionary. *)
Record CriteriaRecord := {
  status : string;
  message : string;
  condition : string
}.

Definition status_names : list string := ["CRITICAL"; "WARNING"; "OK"].

(** The body of the [for line in lines] loop: what is yielded, if
    anything, and the pending condition afterwards. *)
Definition criteria_line (condition : option string) (line : string)
  : option CriteriaRecord * option string :=
  match Re.search CRITERIA line with
  | Some m =>
      let content := PyStr.slice (Re.group0 m) (Some 1) (Some (-1)) in
      if existsb (PyStr.startswith content) status_names then
        let condition :=
          match condition with None => "default" | Some c => c end in
        let comma := PyStr.find content "," in
        let status := PyStr.slice content None (Some comma) in
        let message := PyStr.slice content (Some (comma + 1)) None in
        let message := PyStr.strip message in
        let message := PyStr.slice message (Some 1) (Some (-1)) in
        (Some {| status := status; message := message;
                 condition := condition |}, None)
      else (None, Some content)
  | None => (None, condition)
  end.

Fixpoint criteria_lines (condition : option string) (lines : list string)
  : list CriteriaRecord :=
  match lines with
  | [] => []
  | line :: lines' =>
      match criteria_line condition line with
      | (Some rec, condition') => rec :: criteria_lines condition' lines'
      | (None, condition') => criteria_lines condition' lines'
      end
  end.

(** The records [_get_criteria(criteria)] yields, in order. *)
Definition _get_criteria (criteria : string) : list CriteriaRecord :=
  criteria_lines None (PyStr.split criteria "010").

(** ** Python values and exceptions *)

Module Py.

Inductive exn : Type :=
| KeyError | IndexError | TypeError | AttributeError | NameError
| ConstructorError      (* yaml.constructor.ConstructorError *)
| YAMLError             (* any other error of the YAML reader *)
| TemplateError         (* any error of the template engine *)
| NotModelled.          (* the input leaves the modelled fragment *)

(** A computation that returns or raises. *)
Inductive result (A : Type) : Type :=
| Ok (a : A)
| Raise (e : exn).
Arguments Ok {A} a.
Arguments Raise {A} e.

#[global] Instance result_ret : MRet result := fun A a => Ok a.
#[global] Instance result_bind : MBind result := fun A B f m =>
  match m with Ok a => f a | Raise e => Raise e end.
#[global] Instance result_fmap : FMap result := fun A B f m =>
  match m with Ok a => Ok (f a) | Raise e => Raise e end.

(** The values a YAML document of the core schema loads to (floats and
    timestamps are left out). A [Dict] lists its items in insertion
    order. *)
Inductive value : Type :=
| None_
| Bool (b : bool)
| Int (z : Z)
| Str (s : string)
| List (l : list value)
| Dict (d : list (value * value)).

Definition dict : Type := list (value * value).

(** [isinstance(v, collections.Hashable)] *)
Definition hashable (v : value) : bool :=
  match v with
  | List _ | Dict _ => false
  | _ => true
  end.

(** Equality of dictionary keys: [True == 1] and [False == 0]. *)
Definition key_eqb (a b : value) : bool :=
  match a, b with
  | None_, None_ => true
  | Bool x, Bool y => Bool.eqb x y
  | Bool x, Int z | Int z, Bool x => (Z.b2z x =? z)
  | Int x, Int y => (x =? y)
  | Str x, Str y => String.eqb x y
  | _, _ => false
  end.

(** [d.get(k)] as an option. *)
Fixpoint dict_get {A : Type} (d : list (value * A)) (k : value) : option A :=
  match d with
  | [] => None
  | (k', v) :: d' => if key_eqb k' k then Some v else dict_get d' k
  end.

(** [d[k] = v]: an existing key keeps its place, a new one goes last. *)
Fixpoint dict_set {A : Type} (d : list (value * A)) (k : value) (v : A)
  : list (value * A) :=
  match d with
  | [] => [(k, v)]
  | (k', v') :: d' =>
      if key_eqb k' k then (k', v) :: d' else (k', v') :: dict_set d' k v
  end.

(** [d.pop(k)] for a key that may be absent, keeping only the dictionary. *)
Fixpoint dict_remove {A : Type} (d : list (value * A)) (k : value)
  : list (value * A) :=
  match d with
  | [] => []
  | (k', v') :: d' =>
      if key_eqb k' k then d' else (k', v') :: dict_remove d' k
  end.

(** [k in d] *)
Definition dict_mem {A : Type} (d : list (value * A)) (k : value) : bool :=
  match dict_get d k with Some _ => true | None => false end.

(** [bool(v)] *)
Definition truthy (v : value) : bool :=
  match v with
  | None_ => false
  | Bool b => b
  | Int z => negb (z =? 0)
  | Str s => negb (String.eqb s EmptyString)
  | List l => match l with [] => false | _ => true end
  | Dict d => match d with [] => false | _ => true end
  end.

(** [v.get(k)] *)
Definition get (v : value) (k : value) : result value :=
  match v with
  | Dict d => Ok (match dict_get d k with Some x => x | None => None_ end)
  | _ => Raise AttributeError
  end.

(** [v[k]] for a string key [k]. *)
Definition getitem (v : value) (k : string) : result value :=
  match v with
  | Dict d =>
      match dict_get d (Str k) with Some x => Ok x | None => Raise KeyError end
  | _ => Raise TypeError
  end.

(** [v.items()] *)
Definition items (v : value) : result dict :=
  match v with
  | Dict d => Ok d
  | _ => Raise AttributeError
  end.

Definition hex_digit (n : N) : ascii :=
  ascii_of_N (if (n <? 10)%N then 48 + n else 87 + n)%N.

(** One character of [repr(s)] inside the quotes [q]. *)
Definition repr_char (q c : ascii) : string :=
  let n := N_of_ascii c in
  if Ascii.eqb c q || Ascii.eqb c "\"
  then String "\" (String c EmptyString)
  else if (n =? 9)%N then "\t"
  else if (n =? 10)%N then "\n"
  else if (n =? 13)%N then "\r"
  else if (n <? 32)%N || ((127 <=? n) && (n <=? 160))%N || (n =? 173)%N
  then String "\" (String "x" (String (hex_digit (n / 16))
         (String (hex_digit (n mod 16)) EmptyString)))
  else String c EmptyString.

Fixpoint repr_chars (q : ascii) (s : string) : string :=
  match s with
  | EmptyString => EmptyString
  | String c s' => repr_char q c ++ repr_chars q s'
  end.

(** [repr(s)] of a text: single quotes unless the text has a single
    quote and no double quote. *)
Definition repr_str (s : string) : string :=
  let q := if PyStr.contains s "'" && negb (PyStr.contains s PyStr.dquote)
           then PyStr.dquote else "'"%char in
  String q (repr_chars q s ++ String q EmptyString).

(** [repr] of a list whose items are already printed. *)
Definition repr_list (items : list string) : string :=
  "[" ++ PyStr.join_str ", " items ++ "]".

End Py.

(** ** YAML nodes and [RemappingLoader] *)

Module Yaml.
Import Py.

(** The representation graph the composer hands to the constructor
    ([yaml.nodes]); marks are left out. *)
Inductive Node : Type :=
| ScalarNode (tag : string) (value : string)
| SequenceNode (tag : string) (value : list Node)
| MappingNode (tag : string) (value : list (Node * Node)).

Definition null_tag : string := "tag:yaml.org,2002:null".
Definition bool_tag : string := "tag:yaml.org,2002:bool".
Definition int_tag : string := "tag:yaml.org,2002:int".
Definition str_tag : string := "tag:yaml.org,2002:str".
Definition seq_tag : string := "tag:yaml.org,2002:seq".
Definition map_tag : string := "tag:yaml.org,2002:map".

(** [Node.__repr__]: ['%s(tag=%r, value=%s)'] of the class name, the tag
    and [repr(value)]; the items of a mapping node are 2-tuples. *)
Fixpoint repr_node (node : Node) : string :=
  match node with
  | ScalarNode t v =>
      "ScalarNode(tag=" ++ repr_str t ++ ", value=" ++ repr_str v ++ ")"
  | SequenceNode t l =>
      "SequenceNode(tag=" ++ repr_str t ++ ", value="
        ++ repr_list (map repr_node l) ++ ")"
  | MappingNode t l =>
      "MappingNode(tag=" ++ repr_str t ++ ", value="
        ++ repr_list
             (map (fun kv => "(" ++ repr_node (fst kv) ++ ", "
                               ++ repr_node (snd kv) ++ ")") l)
        ++ ")"
  end.

(** ['%s' % node.value]: a text as it is, a list by its [repr]. *)
Definition format_value (node : Node) : string :=
  match node with
  | ScalarNode _ v => v
  | SequenceNode _ l => repr_list (map repr_node l)
  | MappingNode _ l =>
      repr_list
        (map (fun kv => "(" ++ repr_node (fst kv) ++ ", "
                          ++ repr_node (snd kv) ++ ")") l)
  end.

(** [bool_values] of the safe constructor, on the lowered text. *)
Definition bool_values (s : string) : option bool :=
  if String.eqb s "yes" || String.eqb s "true" || String.eqb s "on"
  then Some true
  else if String.eqb s "no" || String.eqb s "false" || String.eqb s "off"
  then Some false
  else None.

Definition lower_char (c : ascii) : ascii :=
  let n := N_of_ascii c in
  if ((65 <=? n) && (n <=? 90))%N then ascii_of_N (n + 32) else c.

Fixpoint lower (s : string) : string :=
  match s with
  | EmptyString => EmptyString
  | String c s' => String (lower_char c) (lower s')
  end.

Fixpoint decimal (s : string) (acc : Z) : option Z :=
  match s with
  | EmptyString => Some acc
  | String c s' =>
      let n := N_of_ascii c in
      if ((48 <=? n) && (n <=? 57))%N
      then decimal s' (10 * acc + Z.of_N (n - 48))
      else None
  end.

(** [construct_yaml_int] on plain decimal text with an optional sign;
    the other notations of an integer are outside the model. *)
Definition construct_yaml_int (s : string) : result Py.value :=
  let parse (sign : Z) (digits : string) :=
    match digits with
    | EmptyString => Raise NotModelled
    | String "0" (String _ _) => Raise NotModelled
    | _ => match decimal digits 0 with
           | Some z => Ok (Int (sign * z))
           | None => Raise NotModelled
           end
    end in
  match s with
  | String "-" s' => parse (-1) s'
  | String "+" s' => parse 1 s'
  | _ => parse 1 s
  end.

(** [construct_object] on a scalar node: the constructor registered for
    the tag, applied to the node's text. *)
Definition construct_scalar_node (tag value : string) : result Py.value :=
  if String.eqb tag str_tag then Ok (Str value)
  else if String.eqb tag null_tag then Ok None_
  else if String.eqb tag bool_tag then
    match bool_values (lower value) with
    | Some b => Ok (Bool b)
    | None => Raise KeyError
    end
  else if String.eqb tag int_tag then construct_yaml_int value
  else if String.eqb tag seq_tag then Raise ConstructorError
  else if String.eqb tag map_tag then Raise NameError
  else Raise NotModelled.

(** Lines 80-84 of [construct_mapping]: the key built in place of an
    unhashable one, from [key_node.value[0][0].value]. *)
Definition recover_key (key_node : Node) : result Py.value :=
  match key_node with
  | MappingNode _ ((first, _) :: _) =>
      construct_scalar_node str_tag
        (PyStr.quoted ("{{ " ++ format_value first ++ " }}"))
  | MappingNode _ [] => Raise IndexError
  | SequenceNode _ (_ :: _) => Raise TypeError
  | SequenceNode _ [] => Raise IndexError
  | ScalarNode _ EmptyString => Raise IndexError
  | ScalarNode _ (String _ _) => Raise AttributeError
  end.

Section Construct.
(** [self.construct_object], tied below. *)
Variable construct_object : Node -> result Py.value.

(** The [for key_node, value_node in node.value] loop of
    [RemappingLoader.construct_mapping]. *)
Fixpoint construct_pairs (pairs : list (Node * Node)) (mapping : dict)
  : result dict :=
  match pairs with
  | [] => Ok mapping
  | (key_node, value_node) :: pairs' =>
      key ← construct_object key_node;
      key ← (if hashable key then Ok key else recover_key key_node);
      value ← construct_object value_node;
      construct_pairs pairs' (dict_set mapping key value)
  end.

(** [RemappingLoader.construct_mapping(node)]. The name raised for a
    node that is no mapping is not bound in the module, so that branch
    ends in [NameError]. *)
Definition construct_mapping_with (node : Node) : result dict :=
  match node with
  | MappingNode _ pairs => construct_pairs pairs []
  | _ => Raise NameError
  end.

(** [construct_sequence(node)] of the base constructor. *)
Fixpoint construct_items (items : list Node) : result (list Py.value) :=
  match items with
  | [] => Ok []
  | item :: items' =>
      x ← construct_object item;
      xs ← construct_items items';
      Ok (x :: xs)
  end.
End Construct.

(** [construct_object(node)] with the objects of the collections filled
    in, as they are once the document is constructed. *)
Fixpoint construct_object (node : Node) : result Py.value :=
  match node with
  | ScalarNode tag value => construct_scalar_node tag value
  | SequenceNode tag items =>
      if String.eqb tag seq_tag
      then List <$> construct_items construct_object items
      else if String.eqb tag map_tag then Raise NameError
      else if String.eqb tag str_tag || String.eqb tag null_tag
              || String.eqb tag bool_tag || String.eqb tag int_tag
      then Raise ConstructorError
      else Raise NotModelled
  | MappingNode tag pairs =>
      if String.eqb tag map_tag
      then Dict <$> construct_pairs construct_object pairs []
      else if String.eqb tag seq_tag || String.eqb tag str_tag
              || String.eqb tag null_tag || String.eqb tag bool_tag
              || String.eqb tag int_tag
      then Raise ConstructorError
      else Raise NotModelled
  end.

Definition construct_mapping (node : Node) : result dict :=
  construct_mapping_with construct_object node.

(** [yaml.load(text, Loader=RemappingLoader)] after composition: an empty
    stream has no node and loads to [None]. *)
Definition construct_document (root : option Node) : result Py.value :=
  match root with
  | Some node => construct_object node
  | None => Ok None_
  end.

(** The node of the flow text [{{ name }}]: a mapping whose one key is
    the mapping [{ name }], both with an empty value. *)
Definition flow_expression (name : string) : Node :=
  MappingNode map_tag
    [(MappingNode map_tag
        [(ScalarNode str_tag name, ScalarNode null_tag EmptyString)],
      ScalarNode null_tag EmptyString)].

End Yaml.

(** ** The libraries behind the extractor *)

(** What a [jinja2.Environment] is built from in [check_details]: the
    files its loader reads and its globals. *)
Record Environment := {
  env_templates : list (string * string);
  env_globals : gmap string Py.value
}.

(** The template engine. An [Ok None] label stands for the
    [AttributeError] that [check_details] catches. *)
Class Jinja2 := {
  (** [jinja2.meta.find_undeclared_variables(environment.parse(value))] *)
  find_undeclared_variables :
    Environment -> Py.value -> Py.result (gset string);
  (** [jinja2.Template(value).render(config_variables)] *)
  render_source : Py.value -> gmap string Py.value -> Py.result string;
  (** [env.get_template(name).render()] *)
  render_template : Environment -> string -> Py.result string;
  (** [env.get_template(name).module.label] *)
  module_label : Environment -> string -> Py.result (option Py.value)
}.

(** The YAML reader. *)
Class PyYAML := {
  (** composition of a text into its root node, none for an empty stream *)
  compose : string -> Py.result (option Yaml.Node);
  (** [yaml.load(text)] with the default loader *)
  load : string -> Py.result Py.value
}.

(** The order in which a [set] of names is iterated: any enumeration. *)
Class SetOrder := {
  iterate : gset string -> list string;
  iterate_perm : forall s, iterate s ≡ₚ elements s
}.

(** ** The undeclared-variable resolver *)

(** A value of an alarm's dictionary: a default, or the records stored
    under [_criteria]. *)
Inductive DetailValue : Type :=
| Default (v : Py.value)
| Criteria (records : list CriteriaRecord).

Definition ignore : list string :=
  ["maas_alarm_local_consecutive_count"; "volume_group";
   "console_service_name"].

Definition redirect : list (string * string) :=
  [("warning_threshold", "maas_filesystem_warning_threshold");
   ("critical_threshold", "maas_filesystem_critical_threshold")].

(** [for item in ignore: if item in undeclared: undeclared.remove(item)] *)
Definition remove_ignored (undeclared : gset string) : gset string :=
  foldl (fun u item => if decide (item ∈ u) then u ∖ {[item]} else u)
        undeclared ignore.

(** The [for redirect_key, redirect_value in redirect.items()] loop. *)
Fixpoint apply_redirect (items : list (string * string))
    (undeclared : gset string) (config_variables : gmap string Py.value)
  : Py.result (gset string * gmap string Py.value) :=
  match items with
  | [] => Py.Ok (undeclared, config_variables)
  | (redirect_key, redirect_value) :: items' =>
      if decide (redirect_key ∈ undeclared) then
        let undeclared := undeclared ∖ {[redirect_key]} ∪ {[redirect_value]} in
        match config_variables !! redirect_value with
        | Some v =>
            apply_redirect items' undeclared
              (<[redirect_key := v]> config_variables)
        | None => Py.Raise Py.KeyError
        end
      else apply_redirect items' undeclared config_variables
  end.

(** [{key: config_variables[key] for key in undeclared}] over the names in
    iteration order. *)
Fixpoint collect_defaults (names : list string)
    (config_variables : gmap string Py.value)
    (defaults : gmap string DetailValue)
  : Py.result (gmap string DetailValue) :=
  match names with
  | [] => Py.Ok defaults
  | key :: names' =>
      match config_variables !! key with
      | Some v =>
          collect_defaults names' config_variables
            (<[key := Default v]> defaults)
      | None => Py.Raise Py.KeyError
      end
  end.

(** [{key: value["criteria"] for key, value in alarms.items()}] *)
Fixpoint alarm_criteria (items : Py.dict) (alarms : Py.dict)
  : Py.result Py.dict :=
  match items with
  | [] => Py.Ok alarms
  | (key, value) :: items' =>
      criteria ← Py.getitem value "criteria";
      alarm_criteria items' (Py.dict_set alarms key criteria)
  end.

(** [if "args" in check_details: check_details.pop("args")], and the
    [check_details.items()] the loop then needs. *)
Definition pop_args (check_details : Py.value) : Py.result Py.dict :=
  match check_details with
  | Py.Dict d => Py.Ok (Py.dict_remove d (Py.Str "args"))
  | Py.List l =>
      if existsb (Py.key_eqb (Py.Str "args")) l
      then Py.Raise Py.TypeError else Py.Raise Py.AttributeError
  | Py.Str _ => Py.Raise Py.AttributeError
  | _ => Py.Raise Py.TypeError
  end.

Definition details_t : Type := list (Py.value * gmap string DetailValue).

Section Resolver.
Context {jinja : Jinja2} {order : SetOrder}.

(** The names whose defaults one expression contributes, and the
    configuration after the redirections (lines 203-221). *)
Definition resolve_names (environment : Environment) (value : Py.value)
    (config_variables : gmap string Py.value)
  : Py.result (gset string * gmap string Py.value) :=
  undeclared ← find_undeclared_variables environment value;
  apply_redirect redirect (remove_ignored undeclared) config_variables.

(** One turn of the loop over [chain(alarms.items(),
    check_details.items())]. *)
Definition check_entry (environment : Environment)
    (alarms check_details : Py.dict)
    (state : details_t * gmap string Py.value)
    (entry : Py.value * Py.value)
  : Py.result (details_t * gmap string Py.value) :=
  let '(details, config_variables) := state in
  let '(key, value) := entry in
  if Py.key_eqb key (Py.Str "file") || Py.key_eqb key (Py.Str "url")
  then Py.Ok state
  else
    '(undeclared, config_variables) ←
      resolve_names environment value config_variables;
    defaults ← collect_defaults (iterate undeclared) config_variables ∅;
    let check_wide := Py.dict_mem check_details key in
    let key := if check_wide then Py.Str "_check_variables" else key in
    if check_wide && bool_decide (defaults = ∅)
    then Py.Ok (details, config_variables)
    else
      let current :=
        match Py.dict_get details key with
        | Some present => defaults ∪ present   (* present.update(defaults) *)
        | None => defaults
        end in
      if Py.dict_mem alarms key then
        rendered_criteria ← render_source value config_variables;
        Py.Ok (Py.dict_set details key
                 (<["_criteria" := Criteria (_get_criteria rendered_criteria)]>
                    current),
               config_variables)
      else Py.Ok (Py.dict_set details key current, config_variables).

Fixpoint check_entries (environment : Environment)
    (alarms check_details : Py.dict) (entries : Py.dict)
    (state : details_t * gmap string Py.value)
  : Py.result (details_t * gmap string Py.value) :=
  match entries with
  | [] => Py.Ok state
  | entry :: entries' =>
      state' ← check_entry environment alarms check_details state entry;
      check_entries environment alarms check_details entries' state'
  end.

(** The entries the loop of [_get_check_details] runs over: the alarms
    with their criteria, then the check-wide details without [args]. *)
Definition check_items (rendered_yaml : Py.value)
  : Py.result (Py.dict * Py.dict) :=
  alarms ← Py.get rendered_yaml (Py.Str "alarms");
  let alarms := if Py.truthy alarms then alarms else Py.Dict [] in
  items ← Py.items alarms;
  alarms ← alarm_criteria items [];
  check_details ← Py.get rendered_yaml (Py.Str "details");
  let check_details :=
    if Py.truthy check_details then check_details else Py.Dict [] in
  check_details ← pop_args check_details;
  Py.Ok (alarms, check_details).

(** [_get_check_details(rendered_yaml, config_variables, environment)]:
    the dictionary returned, and [config_variables] as the call leaves
    it. *)
Definition _get_check_details (rendered_yaml : Py.value)
    (config_variables : gmap string Py.value) (environment : Environment)
  : Py.result (details_t * gmap string Py.value) :=
  '(alarms, check_details) ← check_items rendered_yaml;
  check_entries environment alarms check_details
    (alarms ++ check_details)%list ([], config_variables).

End Resolver.

(** ** The driver *)

(** The root directory as the extractor reads it: the files of
    [playbooks/vars] and of [playbooks/templates/rax-maas], name and
    content, in the order a scan of the directory lists them. *)
Record Directory := {
  vars_dir : list (string * string);
  templates_dir : list (string * string)
}.

(** [name.endswith(suffix)] *)
Definition endswith (name suffix : string) : bool :=
  String.eqb
    (PyStr.slice name (Some (PyStr.len name - PyStr.len suffix)) None) suffix
  && (PyStr.len suffix <=? PyStr.len name).

(** [path.glob("*" + suffix)] *)
Definition glob (files : list (string * string)) (suffix : string)
  : list (string * string) :=
  filter (fun file => endswith (fst file) suffix = true) files.

(** [variables.update(loaded)] for a loaded mapping with text keys. *)
Fixpoint update_variables (items : Py.dict) (variables : gmap string Py.value)
  : Py.result (gmap string Py.value) :=
  match items with
  | [] => Py.Ok variables
  | (Py.Str name, v) :: items' =>
      update_variables items' (<[name := v]> variables)
  | _ => Py.Raise Py.NotModelled
  end.

Definition global_names : list string :=
  ["inventory_hostname"; "ansible_hostname"; "ansible_host";
   "ansible_nodename"; "ansible_fqdn"; "container_name"; "maas_plugin_dir";
   "maas_lb_name"].

Definition process_names : list string :=
  ["elasticsearch_process_names"; "filebeat_process_names";
   "rsyslogd_process_names"; "maas_swift_account_process_names";
   "maas_swift_container_process_names"; "maas_swift_object_process_names"].

(** [for name in (...): new_globals[name] = config_variables[name]] *)
Fixpoint copy_names (names : list string)
    (config_variables new_globals : gmap string Py.value)
  : Py.result (gmap string Py.value) :=
  match names with
  | [] => Py.Ok new_globals
  | name :: names' =>
      match config_variables !! name with
      | Some v => copy_names names' config_variables (<[name := v]> new_globals)
      | None => Py.Raise Py.KeyError
      end
  end.

(** [_get_globals(config_variables)] *)
Definition _get_globals (config_variables : gmap string Py.value)
  : Py.result (gmap string Py.value) :=
  let new_globals : gmap string Py.value :=
    foldl (fun g k => <[k := Py.Str k]> g) ∅ global_names in
  let new_globals := <["maas_excluded_checks_regex" := Py.Str EmptyString]> new_globals in
  let new_globals := <["maas_excluded_alarms_regex" := Py.Str EmptyString]> new_globals in
  let new_globals :=
    <["maas_disk_util_devices" := Py.List [Py.Str "device"]]> new_globals in
  let new_globals :=
    <["ceph_osd_host" :=
        Py.Dict [(Py.Str "osd_ids", Py.List [Py.Str "id"])]]> new_globals in
  new_globals ← copy_names process_names config_variables new_globals;
  Py.Ok (<["item" := Py.Dict [(Py.Str "label", Py.Str "label");
                              (Py.Str "key", Py.Str "key");
                              (Py.Str "filesystem", Py.Str "<filesystem>")]]>
           new_globals).

Section Driver.
Context {jinja : Jinja2} {yaml : PyYAML} {order : SetOrder}.

(** The loop of [_get_defaults] over the variable files. *)
Fixpoint load_variables (files : list (string * string))
    (variables : gmap string Py.value)
  : Py.result (gmap string Py.value) :=
  match files with
  | [] => Py.Ok variables
  | (_, text) :: files' =>
      loaded ← load text;
      variables ←
        match loaded with
        | Py.Dict items => update_variables items variables
        | Py.List _ | Py.Str _ => Py.Raise Py.NotModelled
        | _ => Py.Raise Py.TypeError
        end;
      load_variables files' variables
  end.

(** [_get_defaults(root)] *)
Definition _get_defaults (root : Directory)
  : Py.result (gmap string Py.value) :=
  variables ← load_variables (glob (vars_dir root) ".yml") ∅;
  Py.Ok (<["maas_swift_access_url_key" :=
            Py.Str "maas_swift_access_url_key"]> variables).

(** The body of the loop of [check_details] for one template that is
    not skipped: the pair it yields, and the configuration it leaves. *)
Definition check_template (env : Environment) (name : string)
    (config_variables : gmap string Py.value)
  : Py.result (Py.value * details_t * gmap string Py.value) :=
  partially_rendered_template ← render_template env name;
  root_node ← compose partially_rendered_template;
  rendered_yaml ← Yaml.construct_document root_node;
  '(details, config_variables) ←
    _get_check_details rendered_yaml config_variables env;
  found ← module_label env name;
  label ← match found with
          | Some label => Py.Ok label
          | None => Py.get rendered_yaml (Py.Str "label")
          end;
  Py.Ok (label, details, config_variables).

(** What a generator produced: the pairs yielded, and the exception
    that ended it, if one did. *)
Definition yielded : Type := list (Py.value * details_t) * option Py.exn.

Fixpoint check_templates (env : Environment)
    (files : list (string * string))
    (config_variables : gmap string Py.value) : yielded :=
  match files with
  | [] => ([], None)
  | (name, _) :: files' =>
      if String.eqb name "checks_base.yaml.j2"
      then check_templates env files' config_variables
      else if String.eqb name "ceph_rgw_stats.yaml.j2"
      then check_templates env files' config_variables
      else
        match check_template env name config_variables with
        | Py.Ok (label, details, config_variables) =>
            let '(rest, raised) :=
              check_templates env files' config_variables in
            ((label, details) :: rest, raised)
        | Py.Raise e => ([], Some e)
        end
  end.

(** [check_details(root)], run to its end. *)
Definition check_details (root : Directory) : yielded :=
  match _get_defaults root with
  | Py.Raise e => ([], Some e)
  | Py.Ok config_variables =>
      match _get_globals config_variables with
      | Py.Raise e => ([], Some e)
      | Py.Ok globals =>
          let env := {| env_templates := templates_dir root;
                        env_globals := globals |} in
          check_templates env (glob (templates_dir root) ".yaml.j2")
            config_variables
      end
  end.

End Driver.

(** ** Notions the statements below are phrased with *)

(** A text without its first character. *)
Definition remove_first (s : string) : string :=
  match s with
  | EmptyString => EmptyString
  | String _ s' => s'
  end.

(** A text without its last character. *)
Fixpoint remove_last (s : string) : string :=
  match s with
  | EmptyString => EmptyString
  | String c EmptyString => EmptyString
  | String c s' => String c (remove_last s')
  end.

(** How the parser reads one line: no clause, a status clause with the
    text around its first comma, or a condition clause. *)
Inductive clause : Type :=
| StatusClause (content : string)
| ConditionClause (content : string).

Definition line_clause (line : string) : option clause :=
  match Re.search CRITERIA line with
  | Some m =>
      let content := PyStr.slice (Re.group0 m) (Some 1) (Some (-1)) in
      Some (if existsb (PyStr.startswith content) status_names
            then StatusClause content else ConditionClause content)
  | None => None
  end.

(** The record of a status clause, as the loop body builds it. *)
Definition status_record (content condition : string) : CriteriaRecord :=
  let comma := PyStr.find content "," in
  {| status := PyStr.slice content None (Some comma);
     message :=
       PyStr.slice (PyStr.strip (PyStr.slice content (Some (comma + 1)) None))
         (Some 1) (Some (-1));
     condition := condition |}.

(** The pairing rule in the specification's words: a status clause takes
    the pending condition, or ["default"], and clears it; a condition
    clause becomes the pending condition. *)
Fixpoint spec_records (pending : option string) (clauses : list clause)
  : list CriteriaRecord :=
  match clauses with
  | [] => []
  | ConditionClause content :: clauses' => spec_records (Some content) clauses'
  | StatusClause content :: clauses' =>
      status_record content (default "default" pending)
        :: spec_records None clauses'
  end.

Definition is_status (c : clause) : bool :=
  match c with StatusClause _ => true | ConditionClause _ => false end.

(** The nesting a text adds: opening minus closing parentheses. *)
Definition paren_delta (c : ascii) : Z :=
  if Ascii.eqb c "(" then 1 else if Ascii.eqb c ")" then -1 else 0.

Fixpoint depth (s : string) : Z :=
  match s with
  | EmptyString => 0
  | String c s' => paren_delta c + depth s'
  end.

(** No closing parenthesis of [s] lacks its opening one in [s], read from
    nesting [d]. *)
Fixpoint no_stray_close (d : Z) (s : string) : bool :=
  match s with
  | EmptyString => true
  | String c s' =>
      let d' := d + paren_delta c in
      (0 <=? d') && no_stray_close d' s'
  end.

(** A text that closes what it opens and never closes more. *)
Definition level (s : string) : Prop :=
  depth s = 0 /\ forall p q, s = p ++ q -> 0 <= depth p.

(** The criteria text of the ping check: a condition line and two status
    lines. *)
Definition ping_criteria : string :=
  PyStr.join "010"
    ["(metric['available'] > 80)";
     "(OK, " ++ PyStr.quoted "Ping responds as expected" ++ ")";
     "(CRITICAL, " ++ PyStr.quoted "Packet loss has occurred" ++ ")"].

(** The names the redirections leave of a set of free variables. *)
Definition redirected (undeclared : gset string) : gset string :=
  foldl (fun u kv => if decide (kv.1 ∈ u) then u ∖ {[kv.1]} ∪ {[kv.2]} else u)
        undeclared redirect.

(** The names that survive the ignore list and the redirections. *)
Definition surviving (undeclared : gset string) : gset string :=
  redirected (remove_ignored undeclared).

(** The key an entry of the loop is filed under. *)
Definition details_key (check_details : Py.dict) (key : Py.value) : Py.value :=
  if Py.dict_mem check_details key then Py.Str "_check_variables" else key.

(** [key in ("file", "url")] *)
Definition skipped_key (key : Py.value) : bool :=
  Py.key_eqb key (Py.Str "file") || Py.key_eqb key (Py.Str "url").

(** What an entry leaves under its key: the defaults, and for an alarm
    the records of its criteria. *)
Definition stored (criteria : option (list CriteriaRecord))
    (current : gmap string DetailValue) : gmap string DetailValue :=
  match criteria with
  | Some records => <["_criteria" := Criteria records]> current
  | None => current
  end.

(** Two configurations that differ at most at the redirected names. *)
Definition agree (cfg cfg' : gmap string Py.value) : Prop :=
  forall x, x ≠ "warning_threshold" -> x ≠ "critical_threshold" ->
            cfg' !! x = cfg !! x.

(** No dictionary of the output has a redirected name as a key. *)
Definition no_originals (details : details_t) : Prop :=
  forall key alarm original target,
    (key, alarm) ∈ details -> (original, target) ∈ redirect ->
    alarm !! original = None.

(** A stand-in for the template engine in closed examples: a text is the
    expression of the one variable it names and renders to itself. *)
Definition one_name_engine : Jinja2 := {|
  find_undeclared_variables _ value :=
    match value with
    | Py.Str name => Py.Ok {[name]}
    | _ => Py.Ok ∅
    end;
  render_source value _ :=
    match value with
    | Py.Str text => Py.Ok text
    | _ => Py.Raise Py.TemplateError
    end;
  render_template _ name := Py.Ok name;
  module_label _ _ := Py.Ok None
|}.

(** Iteration in the order of [elements]. *)
Definition elements_order : SetOrder := {|
  iterate := elements;
  iterate_perm s := Permutation_refl (elements s)
|}.

(** A rendered check with one alarm whose criteria name [expression]. *)
Definition one_alarm_check (alarm expression : string) : Py.value :=
  Py.Dict
    [(Py.Str "alarms",
      Py.Dict [(Py.Str alarm,
                Py.Dict [(Py.Str "criteria", Py.Str expression)])])].

Definition no_environment : Environment :=
  {| env_templates := []; env_globals := ∅ |}.

(** A text whose parentheses are balanced and nested one level at most. *)
Definition flat (s : string) : Prop :=
  depth s = 0 /\ forall p q, s = p ++ q -> 0 <= depth p <= 1.

(** A text without parentheses, read as a run of [[^()]]. *)
Definition plain (s : string) : Prop :=
  forall p q, s = p ++ q -> depth p = 0.

(** The keys of a dictionary are hashable and pairwise different. *)
Fixpoint distinct_keys {A : Type} (d : list (Py.value * A)) : bool :=
  match d with
  | [] => true
  | (k, _) :: d' =>
      Py.hashable k && negb (Py.dict_mem d' k) && distinct_keys d'
  end.

(** A value Python can hold: every dictionary in it has hashable,
    pairwise different keys. *)
Fixpoint well_formed (v : Py.value) : bool :=
  match v with
  | Py.List l => forallb well_formed l
  | Py.Dict d =>
      distinct_keys d && forallb (fun kv => well_formed (snd kv)) d
  | _ => true
  end.

Fixpoint node_size (node : Yaml.Node) : nat :=
  match node with
  | Yaml.ScalarNode _ _ => 1
  | Yaml.SequenceNode _ items => S (list_sum (map node_size items))
  | Yaml.MappingNode _ pairs =>
      S (list_sum (map (fun kv => node_size (fst kv) + node_size (snd kv))%nat
                       pairs))
  end.

(** A rendered check for closed examples: one alarm on a redirected
    threshold, and check-wide details with [args], a [file] setting and
    one configurable target. *)
Definition disk_check : Py.value :=
  Py.Dict
    [(Py.Str "label", Py.Str "disk_check");
     (Py.Str "alarms",
      Py.Dict [(Py.Str "disk",
                Py.Dict [(Py.Str "criteria", Py.Str "warning_threshold")])]);
     (Py.Str "details",
      Py.Dict [(Py.Str "args", Py.List [Py.Str "inventory"]);
               (Py.Str "file", Py.Str "disk_path");
               (Py.Str "target", Py.Str "maas_disk_target")])].

Definition disk_config : gmap string Py.value :=
  {["maas_filesystem_warning_threshold" := Py.Int 80;
    "maas_disk_target" := Py.Str "/"]}.

Definition disk_config_after : gmap string Py.value :=
  <["warning_threshold" := Py.Int 80]> disk_config.

Definition disk_details : details_t :=
  [(Py.Str "disk",
    {["maas_filesystem_warning_threshold" := Default (Py.Int 80);
      "_criteria" := Criteria []]});
   (Py.Str "_check_variables",
    {["maas_disk_target" := Default (Py.Str "/")]})].

(** * Properties *)

(** ** [SilentUndefined] *)

Section SilentUndefinedFacts.
Import SilentUndefined.

(** C1, as stated, fails: indexing into the undefined value [foo] and
    reading an attribute of it give the bare name, not the text of the
    expression. *)
Lemma silent_undefined_access_is_bare_name :
  __getitem__ (Make "foo") (Py.Int 0) = "foo"
  /\ __getattr__ (Make "foo") "bar" = "foo"
  /\ __getitem__ (Make "foo") (Py.Int 0) <> expression "foo"
  /\ __getattr__ (Make "foo") "bar" <> expression "foo".
Proof. repeat split; discriminate. Qed.

(** C1, amended: for every name, string conversion and division give
    the expression text [{{ name }}], which is never empty; indexing and
    attribute access give the name itself. None of the four raises. *)
Theorem silent_undefined_operations (name : string) (key divisor : Py.value)
    (attr : string) :
  let self := Make name in
  __str__ self = "{{ " ++ name ++ " }}"
  /\ __truediv__ self divisor = "{{ " ++ name ++ " }}"
  /\ __str__ self <> EmptyString
  /\ __truediv__ self divisor <> EmptyString
  /\ __getitem__ self key = name
  /\ __getattr__ self attr = name.
Proof. cbn. repeat split; discriminate. Qed.

End SilentUndefinedFacts.

(** ** Texts *)

Section TextFacts.

Lemma append_cons (c : ascii) (a b : string) :
  String c a ++ b = String c (a ++ b).
Proof. reflexivity. Qed.

Lemma append_nil_l (s : string) : EmptyString ++ s = s.
Proof. reflexivity. Qed.

Lemma append_nil_r (s : string) : s ++ EmptyString = s.
Proof.
  induction s as [|c s IH]; [reflexivity|]. now rewrite append_cons, IH.
Qed.

Lemma append_assoc (a b c : string) : (a ++ b) ++ c = a ++ b ++ c.
Proof.
  induction a as [|x a IH]; [reflexivity|]. now rewrite !append_cons, IH.
Qed.

Lemma length_append (a b : string) :
  String.length (a ++ b) = (String.length a + String.length b)%nat.
Proof.
  induction a as [|x a IH]; [reflexivity|].
  rewrite append_cons. cbn [String.length]. now rewrite IH.
Qed.

Lemma substring_all (s : string) : substring 0 (String.length s) s = s.
Proof.
  induction s as [|c s IH]; [reflexivity|].
  cbn [String.length substring]. now rewrite IH.
Qed.

Lemma substring_head (a b : string) :
  substring 0 (String.length a) (a ++ b) = a.
Proof.
  induction a as [|x a IH].
  - destruct b; reflexivity.
  - rewrite append_cons. cbn [String.length substring]. now rewrite IH.
Qed.

Lemma substring_skip (a b : string) (n : nat) :
  substring (String.length a) n (a ++ b) = substring 0 n b.
Proof.
  induction a as [|x a IH]; [reflexivity|].
  rewrite append_cons. cbn [String.length substring]. exact IH.
Qed.

Lemma substring_remove_last (s : string) :
  substring 0 (String.length s - 1) s = remove_last s.
Proof.
  induction s as [|c s IH]; [reflexivity|].
  cbn [String.length]. replace (S (String.length s) - 1)%nat
    with (String.length s) by lia.
  destruct s as [|c' s]; [reflexivity|].
  cbn [String.length substring remove_last]. f_equal.
  cbn [String.length] in IH.
  replace (S (String.length s) - 1)%nat with (String.length s) in IH by lia.
  exact IH.
Qed.

(** [s[:-1]] drops the last character. *)
Lemma slice_to_minus_one (s : string) :
  PyStr.slice s None (Some (-1)) = remove_last s.
Proof.
  unfold PyStr.slice, PyStr.clamp, PyStr.len. cbn [Z.ltb Z.compare].
  replace (Z.to_nat (Z.max 0 (Z.of_nat (String.length s) + -1) - 0))
    with (String.length s - 1)%nat by lia.
  apply substring_remove_last.
Qed.

(** [s[1:-1]] drops the first and the last character. *)
Lemma slice_inner (s : string) :
  PyStr.slice s (Some 1) (Some (-1)) = remove_last (remove_first s).
Proof.
  unfold PyStr.slice, PyStr.clamp, PyStr.len. cbn [Z.ltb Z.compare].
  destruct s as [|c s]; [reflexivity|].
  cbn [String.length remove_first].
  replace (Z.to_nat (Z.min 1 (Z.of_nat (S (String.length s)))))
    with 1%nat by lia.
  replace (Z.to_nat
             (Z.max 0 (Z.of_nat (S (String.length s)) + -1)
              - Z.min 1 (Z.of_nat (S (String.length s)))))
    with (String.length s - 1)%nat by lia.
  cbn [substring]. apply substring_remove_last.
Qed.

Lemma slice_from_zero (s : string) : PyStr.slice s (Some 0) None = s.
Proof.
  unfold PyStr.slice, PyStr.clamp, PyStr.len. cbn [Z.ltb Z.compare].
  replace (Z.to_nat (Z.min 0 (Z.of_nat (String.length s)))) with 0%nat by lia.
  replace (Z.to_nat
             (Z.of_nat (String.length s)
              - Z.min 0 (Z.of_nat (String.length s))))
    with (String.length s) by lia.
  apply substring_all.
Qed.

Lemma find_from_comma (before after : string) (i : Z) :
  PyStr.contains before "," = false ->
  PyStr.find_from "," (before ++ String "," after) i = i + PyStr.len before.
Proof.
  revert i. induction before as [|c before IH]; intros i Hc.
  - rewrite append_nil_l. unfold PyStr.len.
    destruct after; cbn; lia.
  - cbn in Hc. apply orb_false_iff in Hc as [Hc Hrest].
    rewrite append_cons. cbn [PyStr.find_from String.prefix].
    destruct (ascii_dec "," c) as [<-|_]; [discriminate Hc|].
    rewrite IH by assumption. unfold PyStr.len. cbn [String.length]. lia.
Qed.

Lemma slice_before (before after : string) :
  PyStr.slice (before ++ after) None (Some (PyStr.len before)) = before.
Proof.
  unfold PyStr.slice, PyStr.clamp, PyStr.len. rewrite length_append.
  destruct (Z.ltb_spec (Z.of_nat (String.length before)) 0) as [Hneg|_];
    [lia|].
  replace (Z.to_nat (Z.min _ _ - 0)) with (String.length before) by lia.
  apply substring_head.
Qed.

Lemma slice_after (before after : string) (c : ascii) :
  PyStr.slice (before ++ String c after) (Some (PyStr.len before + 1)) None
  = after.
Proof.
  unfold PyStr.slice, PyStr.clamp, PyStr.len. rewrite length_append.
  cbn [String.length].
  destruct (Z.ltb_spec (Z.of_nat (String.length before) + 1) 0) as [Hneg|_];
    [lia|].
  set (n := String.length before). set (m := String.length after).
  replace (Z.min (Z.of_nat n + 1) (Z.of_nat (n + S m)))
    with (Z.of_nat (S n)) by lia.
  rewrite Nat2Z.id.
  replace (Z.to_nat (Z.of_nat (n + S m) - Z.of_nat (S n))) with m by lia.
  replace (S n) with (String.length (before ++ String c EmptyString))
    by (rewrite length_append; cbn [String.length]; lia).
  replace (before ++ String c after)
    with ((before ++ String c EmptyString) ++ after)
    by (rewrite append_assoc; reflexivity).
  rewrite substring_skip. apply substring_all.
Qed.
End TextFacts.

(** ** The criteria parser *)

Section CriteriaFacts.

Lemma find_from_absent (s : string) (c : ascii) (i : Z) :
  PyStr.contains s c = false ->
  PyStr.find_from (String c EmptyString) s i = -1.
Proof.
  revert i. induction s as [|a s IH]; intros i Hc; [reflexivity|].
  cbn in Hc. apply orb_false_iff in Hc as [Hac Hrest].
  cbn [PyStr.find_from String.prefix].
  destruct (ascii_dec c a) as [<-|_].
  - now rewrite Ascii.eqb_refl in Hac.
  - now apply IH.
Qed.

Lemma split_nonempty (s : string) (sep : ascii) : PyStr.split s sep <> [].
Proof.
  induction s as [|c s IH]; cbn; [discriminate|].
  destruct (Ascii.eqb c sep); [discriminate|].
  destruct (PyStr.split s sep); [contradiction | discriminate].
Qed.

Lemma split_one_line (s : string) (sep : ascii) :
  PyStr.contains s sep = false -> PyStr.split s sep = [s].
Proof.
  induction s as [|c s IH]; intros Hc; [reflexivity|].
  cbn in Hc. apply orb_false_iff in Hc as [Hc Hrest].
  cbn. rewrite Hc, (IH Hrest). reflexivity.
Qed.

Lemma split_append (a b : string) (sep : ascii) :
  PyStr.split (a ++ String sep b) sep
  = (PyStr.split a sep ++ PyStr.split b sep)%list.
Proof.
  induction a as [|c a IH].
  - rewrite append_nil_l. cbn. now rewrite Ascii.eqb_refl.
  - rewrite append_cons. cbn [PyStr.split].
    destruct (Ascii.eqb c sep); rewrite IH; [reflexivity|].
    pose proof (split_nonempty a sep) as Hne.
    destruct (PyStr.split a sep); [contradiction | reflexivity].
Qed.

(** The loop body, read through [line_clause]. *)
Lemma criteria_line_clause (pending : option string) (line : string) :
  criteria_line pending line
  = match line_clause line with
    | Some (StatusClause content) =>
        (Some (status_record content (default "default" pending)), None)
    | Some (ConditionClause content) => (None, Some content)
    | None => (None, pending)
    end.
Proof.
  unfold criteria_line, line_clause.
  destruct (Re.search CRITERIA line) as [m|]; [|reflexivity].
  destruct (existsb _ status_names); [|reflexivity].
  destruct pending; reflexivity.
Qed.

Lemma criteria_lines_spec (pending : option string) (lines : list string) :
  criteria_lines pending lines
  = spec_records pending (omap line_clause lines).
Proof.
  revert pending. induction lines as [|line lines IH]; intros pending;
    [reflexivity|].
  cbn [criteria_lines omap list_omap]. rewrite criteria_line_clause.
  destruct (line_clause line) as [[content|content]|]; cbn; now rewrite IH.
Qed.

Lemma spec_records_length (pending : option string) (clauses : list clause) :
  length (spec_records pending clauses) = length (filter is_status clauses).
Proof.
  revert pending. induction clauses as [|[c|c] clauses IH]; intros pending;
    cbn; [reflexivity | now rewrite IH | now rewrite IH].
Qed.

Lemma spec_records_trailing (pending : option string) (clauses : list clause)
    (content : string) :
  spec_records pending (clauses ++ [ConditionClause content])
  = spec_records pending clauses.
Proof.
  revert pending. induction clauses as [|[c|c] clauses IH]; intros pending;
    cbn; [reflexivity | now rewrite IH | now rewrite IH].
Qed.

Lemma remove_last_snoc (s : string) (c : ascii) :
  remove_last (s ++ String c EmptyString) = s.
Proof.
  induction s as [|a s IH]; [reflexivity|].
  rewrite append_cons. cbn [remove_last]. rewrite IH.
  destruct s; reflexivity.
Qed.

End CriteriaFacts.

(** C4: the three-line criteria text of the ping check parses to two
    records, [OK] under the condition of the first line and then
    [CRITICAL] under ["default"]. *)
Theorem ping_criteria_records :
  _get_criteria ping_criteria
  = [ {| status := "OK";
         message := "Ping responds as expected";
         condition := "metric['available'] > 80" |};
      {| status := "CRITICAL";
         message := "Packet loss has occurred";
         condition := "default" |} ].
Proof. vm_compute. reflexivity. Qed.



(** C6, as stated, fails: the message of [(OK, fine)] has no quotes
    around it and still loses its first and last characters. *)
Lemma unquoted_message_is_trimmed :
  _get_criteria "(OK, fine)"
  = [ {| status := "OK"; message := "in"; condition := "default" |} ]
  /\ map message (_get_criteria "(OK, fine)") <> ["fine"].
Proof. split; [vm_compute; reflexivity | vm_compute; discriminate]. Qed.

(** C6, amended: a status clause with a comma is split at its first comma;
    the status is the text before it, and the message is the text after
    it, stripped of leading and trailing whitespace and then without its
    first and its last character, whatever they are. For a message in
    quotes that is the text between the quotes. *)
Theorem status_message_split (pending : option string)
    (line before after : string) :
  line_clause line = Some (StatusClause (before ++ String "," after)) ->
  PyStr.contains before "," = false ->
  criteria_line pending line
  = (Some {| status := before;
             message := remove_last (remove_first (PyStr.strip after));
             condition := default "default" pending |}, None)
  /\ forall body,
       PyStr.strip after = PyStr.quoted body ->
       remove_last (remove_first (PyStr.strip after)) = body.
Proof.
  intros Hclause Hbefore. split.
  - rewrite criteria_line_clause, Hclause. unfold status_record, PyStr.find.
    rewrite find_from_comma by assumption.
    replace (0 + PyStr.len before) with (PyStr.len before) by lia.
    rewrite slice_before, slice_after, slice_inner. reflexivity.
  - intros body ->. unfold PyStr.quoted. cbn [remove_first].
    apply remove_last_snoc.
Qed.

Lemma status_message_split_witness :
  criteria_line None ("(WARNING,  " ++ PyStr.quoted "disk, nearly full" ++ " )")
  = (Some {| status := "WARNING"; message := "disk, nearly full";
             condition := "default" |}, None).
Proof.
  pose proof (status_message_split None
                ("(WARNING,  " ++ PyStr.quoted "disk, nearly full" ++ " )")
                "WARNING" ("  " ++ PyStr.quoted "disk, nearly full" ++ " ")) as H.
  destruct H as [H _]; [vm_compute; reflexivity | vm_compute; reflexivity |].
  exact H.
Defined.



(** ** The matcher and the language of an expression *)

Section MatcherFacts.
Import Re.

Lemma append_eq_inv (p q a b : string) :
  p ++ q = a ++ b ->
  (exists m, a = p ++ m /\ q = m ++ b) \/ (exists m, p = a ++ m /\ b = m ++ q).
Proof.
  revert a. induction p as [|c p IH]; intros a Heq.
  - left. exists a. split; [reflexivity | exact Heq].
  - destruct a as [|c' a].
    + right. exists (String c p). split; [reflexivity|].
      rewrite append_nil_l in Heq. now rewrite Heq.
    + rewrite !append_cons in Heq. injection Heq as -> Heq.
      destruct (IH a Heq) as [[m [-> ->]]|[m [-> ->]]].
      * left. exists m. now rewrite append_cons.
      * right. exists m. now rewrite append_cons.
Qed.

Lemma append_eq_nil (a b : string) :
  a ++ b = EmptyString -> a = EmptyString /\ b = EmptyString.
Proof. destruct a; [now rewrite append_nil_l | discriminate]. Qed.

Lemma star_nonempty_step (r : regex) (s : string) :
  matches (Star r) s ->
  s = EmptyString
  \/ exists a b, a <> EmptyString /\ s = a ++ b
                 /\ matches r a /\ matches (Star r) b.
Proof.
  intros Hm. remember (Star r) as r0 eqn:Hr0.
  induction Hm as [| | | | | r'|r' s1 s2 H1 _ H2 IH2]; try discriminate.
  - left. reflexivity.
  - injection Hr0 as ->. destruct s1 as [|c s1].
    + rewrite append_nil_l. apply IH2. reflexivity.
    + right. exists (String c s1), s2. repeat split; [discriminate|..]; assumption.
Qed.

Section StarLoopFacts.
Variable r : regex.
Variable k : string -> option string.

Hypothesis body_sound :
  forall s k' x, re_match r s k' = Some x ->
    exists s1 s2, s = s1 ++ s2 /\ matches r s1 /\ k' s2 = Some x.

Lemma star_loop_sound (fuel : nat) (s x : string) :
  star_loop (re_match r) k fuel s = Some x ->
  exists s1 s2, s = s1 ++ s2 /\ matches (Star r) s1 /\ k s2 = Some x.
Proof.
  revert s. induction fuel as [|fuel IH]; intros s Hrun;
    cbn [star_loop] in Hrun.
  - exists EmptyString, s. repeat split; [constructor | exact Hrun].
  - destruct (re_match r s _) as [y|] eqn:Hbody.
    + assert (y = x) as -> by congruence.
      apply body_sound in Hbody as (s1 & s2 & -> & Hm1 & Hk).
      destruct (String.length s2 <? String.length (s1 ++ s2))%nat;
        [|discriminate].
      apply IH in Hk as (t1 & t2 & -> & Hm2 & Hk).
      exists (s1 ++ t1), t2. rewrite append_assoc.
      repeat split; [constructor; assumption | exact Hk].
    + exists EmptyString, s. repeat split; [constructor | exact Hrun].
Qed.

Hypothesis body_complete :
  forall s1, matches r s1 ->
    forall s2 k' x, k' s2 = Some x ->
      exists y, re_match r (s1 ++ s2) k' = Some y.

Lemma star_loop_complete (fuel : nat) (s1 s2 x : string) :
  matches (Star r) s1 -> k s2 = Some x ->
  (String.length (s1 ++ s2) <= fuel)%nat ->
  exists y, star_loop (re_match r) k fuel (s1 ++ s2) = Some y.
Proof.
  revert s1. induction fuel as [|fuel IH]; intros s1 Hm Hk Hlen.
  - assert (s1 ++ s2 = EmptyString) as Hnil
        by (destruct (s1 ++ s2); [reflexivity | cbn in Hlen; lia]).
    apply append_eq_nil in Hnil as [-> ->]. exists x. exact Hk.
  - cbn [star_loop].
    destruct (star_nonempty_step r s1 Hm)
      as [->|(a & b & Ha & -> & Hma & Hmb)].
    + rewrite append_nil_l. destruct (re_match r s2 _) as [y|].
      * exists y. reflexivity.
      * exists x. exact Hk.
    + assert (String.length (b ++ s2) < String.length ((a ++ b) ++ s2))%nat
        as Hlt.
      { rewrite append_assoc, (length_append a).
        destruct a; [contradiction | cbn; lia]. }
      destruct (IH b Hmb Hk) as [y Hy]; [lia|].
      rewrite append_assoc.
      edestruct (body_complete a Hma (b ++ s2)) as [z Hz].
      2:{ rewrite Hz. exists z. reflexivity. }
      cbn beta. rewrite <- append_assoc.
      apply Nat.ltb_lt in Hlt. rewrite Hlt. exact Hy.
Qed.
End StarLoopFacts.

(** Whatever the matcher accepts is a word of the language followed by
    a text the continuation accepts. *)
Lemma re_match_sound (r : regex) :
  forall s k x, re_match r s k = Some x ->
    exists s1 s2, s = s1 ++ s2 /\ matches r s1 /\ k s2 = Some x.
Proof.
  induction r as [c|cs|r1 IH1 r2 IH2|r1 IH1 r2 IH2|r IH]; intros s k x Hrun;
    cbn [re_match] in Hrun.
  - destruct s as [|a s]; [discriminate|].
    destruct (Ascii.eqb_spec a c) as [->|_]; [|discriminate].
    exists (String c EmptyString), s. repeat split; [constructor | exact Hrun].
  - destruct s as [|a s]; [discriminate|].
    destruct (existsb (Ascii.eqb a) cs) eqn:Hcs; [discriminate|].
    exists (String a EmptyString), s.
    repeat split; [now constructor | exact Hrun].
  - apply IH1 in Hrun as (s1 & s2 & -> & Hm1 & Hrun).
    apply IH2 in Hrun as (t1 & t2 & -> & Hm2 & Hk).
    exists (s1 ++ t1), t2. rewrite append_assoc.
    repeat split; [constructor; assumption | exact Hk].
  - destruct (re_match r1 s k) as [y|] eqn:H1.
    + assert (y = x) as -> by congruence. apply IH1 in H1 as (s1 & s2 & -> & Hm & Hk).
      exists s1, s2. repeat split; [now apply MAltL | exact Hk].
    + apply IH2 in Hrun as (s1 & s2 & -> & Hm & Hk).
      exists s1, s2. repeat split; [now apply MAltR | exact Hk].
  - eapply star_loop_sound; [exact IH | exact Hrun].
Qed.

(** Where a word of the language is followed by a text the continuation
    accepts, the matcher finds a match. *)
Lemma re_match_complete (r : regex) :
  forall s1, matches r s1 ->
    forall s2 k x, k s2 = Some x ->
      exists y, re_match r (s1 ++ s2) k = Some y.
Proof.
  induction r as [c|cs|r1 IH1 r2 IH2|r1 IH1 r2 IH2|r IH];
    intros s1 Hm s2 k x Hk.
  - inversion Hm; subst. rewrite append_cons, append_nil_l. cbn.
    rewrite Ascii.eqb_refl. exists x. exact Hk.
  - inversion Hm as [|cs' a Hcs| | | | |]; subst.
    rewrite append_cons, append_nil_l. cbn. rewrite Hcs. exists x. exact Hk.
  - inversion Hm as [| |r1' r2' a b Ha Hb| | | |]; subst.
    destruct (IH2 b Hb s2 k x Hk) as [y Hy].
    rewrite append_assoc. cbn [re_match].
    apply (IH1 a Ha (b ++ s2) (fun s' => re_match r2 s' k) y Hy).
  - cbn [re_match].
    inversion Hm as [| | |r1' r2' s Hl|r1' r2' s Hr| |]; subst.
    + destruct (IH1 s1 Hl s2 k x Hk) as [y Hy]. rewrite Hy. exists y. reflexivity.
    + destruct (re_match r1 (s1 ++ s2) k) as [y|]; [exists y; reflexivity|].
      apply (IH2 s1 Hr s2 k x Hk).
  - cbn [re_match]. eapply star_loop_complete; eauto.
Qed.

Lemma match_here_sound (r : regex) (s g : string) :
  match_here r s = Some g -> exists rest, s = g ++ rest /\ matches r g.
Proof.
  unfold match_here. destruct (re_match r s Some) as [rest|] eqn:Hrun;
    [|discriminate].
  intros [= <-]. apply re_match_sound in Hrun as (s1 & s2 & -> & Hm & [= ->]).
  exists rest. rewrite length_append.
  replace (String.length s1 + String.length rest - String.length rest)%nat
    with (String.length s1) by lia.
  rewrite substring_head. split; [reflexivity | exact Hm].
Qed.

Lemma match_here_complete (r : regex) (g rest : string) :
  matches r g -> exists g', match_here r (g ++ rest) = Some g'.
Proof.
  intros Hm. unfold match_here.
  destruct (re_match_complete r g Hm rest Some rest eq_refl) as [y ->].
  eexists. reflexivity.
Qed.

End MatcherFacts.

(** ** The clauses [CRITERIA] matches *)

Section ClauseFacts.
Import Re.

Lemma depth_append (a b : string) : depth (a ++ b) = depth a + depth b.
Proof.
  induction a as [|c a IH]; [reflexivity|].
  rewrite append_cons. cbn [depth]. rewrite IH. lia.
Qed.

Lemma level_nil : level EmptyString.
Proof.
  split; [reflexivity|]. intros p q Heq. symmetry in Heq.
  apply append_eq_nil in Heq as [-> _]. reflexivity.
Qed.

Lemma level_append (a b : string) : level a -> level b -> level (a ++ b).
Proof.
  intros [Ha Hpa] [Hb Hpb]. split; [rewrite depth_append; lia|].
  intros p q Heq. symmetry in Heq.
  apply append_eq_inv in Heq as [[m [-> _]]|[m [-> ->]]].
  - eapply Hpa. reflexivity.
  - rewrite depth_append, Ha. specialize (Hpb m q eq_refl). lia.
Qed.

Lemma level_plain (c : ascii) :
  existsb (Ascii.eqb c) parens = false -> level (String c EmptyString).
Proof.
  intros Hc. cbn in Hc. apply orb_false_iff in Hc as [Ho Hc].
  apply orb_false_iff in Hc as [Hc _].
  assert (paren_delta c = 0) as Hd by (unfold paren_delta; now rewrite Ho, Hc).
  split; [cbn; lia|]. intros p q Heq. destruct p as [|a p]; [reflexivity|].
  rewrite append_cons in Heq. injection Heq as <- Heq.
  symmetry in Heq. apply append_eq_nil in Heq as [-> _]. cbn. lia.
Qed.

Lemma level_wrap (s : string) :
  level s -> level (String "(" (s ++ String ")" EmptyString)).
Proof.
  intros [Hs Hps]. split.
  - cbn [depth]. rewrite depth_append. cbn. lia.
  - intros p q Heq. destruct p as [|a p]; [reflexivity|].
    rewrite append_cons in Heq. injection Heq as <- Heq. cbn [depth].
    change (paren_delta "(") with 1. symmetry in Heq.
    apply append_eq_inv in Heq as [[m [-> _]]|[m [-> Hm]]].
    + specialize (Hps p m eq_refl). lia.
    + rewrite depth_append, Hs. destruct m as [|c m]; [cbn; lia|].
      rewrite append_cons in Hm. injection Hm as <- Hm.
      symmetry in Hm. apply append_eq_nil in Hm as [-> _]. cbn. lia.
Qed.

Lemma level_star (r : regex) (s : string) :
  (forall t, matches r t -> level t) -> matches (Star r) s -> level s.
Proof.
  intros Hr Hm. remember (Star r) as r0 eqn:Hr0.
  induction Hm as [| | | | | r'|r' s1 s2 H1 _ H2 IH2]; try discriminate.
  - apply level_nil.
  - assert (r' = r) as -> by congruence.
    apply level_append; [now apply Hr | now apply IH2].
Qed.

Lemma level_plain_run (s : string) :
  matches (Star (NoneOf parens)) s -> level s.
Proof.
  apply level_star. intros t Ht. inversion Ht; subst. now apply level_plain.
Qed.

(** A clause is an opening parenthesis, a level text and a closing
    parenthesis. *)
Lemma clause_shape (g : string) :
  matches CRITERIA g ->
  exists inner, g = String "(" (inner ++ String ")" EmptyString)
                /\ level inner.
Proof.
  unfold CRITERIA. intros Hm.
  inversion Hm as [| |r1 r2 a b Ha Hb| | | |]; subst.
  inversion Ha; subst.
  inversion Hb as [| |r1 r2 inner c Hinner Hc| | | |]; subst.
  inversion Hc; subst.
  exists inner. split; [reflexivity|].
  revert Hinner. apply level_star. intros t Ht.
  inversion Ht as [| | |r1 r2 s Hl|r1 r2 s Hr| |]; subst.
  - now apply level_plain_run.
  - inversion Hr as [| |r1 r2 a' b' Ha' Hb'| | | |]; subst.
    inversion Ha'; subst.
    inversion Hb' as [| |r1 r2 n c' Hn Hc'| | | |]; subst.
    inversion Hc'; subst.
    rewrite append_cons, append_nil_l. apply level_wrap.
    now apply level_plain_run.
Qed.

Lemma clause_depth (g : string) : matches CRITERIA g -> depth g = 0.
Proof.
  intros Hm. apply clause_shape in Hm as (inner & -> & Hlevel).
  now destruct (level_wrap inner Hlevel).
Qed.

(** Inside a clause, the nesting never returns to zero. *)
Lemma clause_open (g p q : string) :
  matches CRITERIA g -> g = p ++ q ->
  p <> EmptyString -> q <> EmptyString -> 1 <= depth p.
Proof.
  intros Hm Heq Hp Hq. apply clause_shape in Hm as (inner & -> & [_ Hpre]).
  destruct p as [|a p]; [contradiction|].
  rewrite append_cons in Heq. injection Heq as <- Heq. cbn [depth].
  change (paren_delta "(") with 1.
  apply append_eq_inv in Heq as [[m [-> Hm]]|[m [-> _]]].
  - destruct m as [|c m].
    + rewrite append_nil_r. specialize (Hpre inner EmptyString).
      rewrite append_nil_r in Hpre. specialize (Hpre eq_refl). lia.
    + rewrite append_cons in Hm. injection Hm as _ Hm. symmetry in Hm.
      apply append_eq_nil in Hm as [_ ->]. contradiction.
  - specialize (Hpre p m eq_refl). lia.
Qed.

(** No clause is the start of a longer one. *)
Lemma clause_prefix_free (g g' r r' : string) :
  matches CRITERIA g -> matches CRITERIA g' -> g ++ r = g' ++ r' -> g = g'.
Proof.
  assert (forall a b m, matches CRITERIA a -> matches CRITERIA b ->
                        b = a ++ m -> m = EmptyString) as Hstep.
  { intros a b m Ha Hb Heq. destruct m as [|c m]; [reflexivity|].
    assert (a <> EmptyString) as Hne.
    { apply clause_shape in Ha as (inner & -> & _). discriminate. }
    pose proof (clause_open b a (String c m) Hb Heq Hne ltac:(discriminate)).
    pose proof (clause_depth a Ha). lia. }
  intros Hg Hg' Heq.
  apply append_eq_inv in Heq as [[m [Hm _]]|[m [Hm _]]].
  - rewrite (Hstep g g' m Hg Hg' Hm), append_nil_r in Hm. now symmetry.
  - rewrite (Hstep g' g m Hg' Hg Hm), append_nil_r in Hm. exact Hm.
Qed.

Lemma no_stray_close_prefix (d : Z) (s p q : string) :
  no_stray_close d s = true -> s = p ++ q -> 0 <= d -> 0 <= d + depth p.
Proof.
  revert d s. induction p as [|c p IH]; intros d s Hs Heq Hd; [cbn; lia|].
  rewrite append_cons in Heq. subst s. cbn [no_stray_close] in Hs.
  apply andb_true_iff in Hs as [Hle Hs]. apply Z.leb_le in Hle.
  cbn [depth]. specialize (IH _ _ Hs eq_refl Hle). lia.
Qed.

(** A match at the head of a text is still the match when text is
    added behind. *)
Lemma match_here_extend (s rest g : string) :
  match_here CRITERIA s = Some g ->
  match_here CRITERIA (s ++ rest) = Some g.
Proof.
  intros Hs. apply match_here_sound in Hs as (r & -> & Hg).
  rewrite append_assoc.
  destruct (match_here_complete CRITERIA g (r ++ rest) Hg) as [g' Hg'].
  rewrite Hg'. f_equal.
  apply match_here_sound in Hg' as (r' & Heq & Hm').
  symmetry. eapply clause_prefix_free; eassumption.
Qed.

(** A position without a match has none either when the text added
    behind closes nothing it did not open. *)
Lemma match_here_none_extend (c : ascii) (s rest : string) :
  match_here CRITERIA (String c s) = None ->
  no_stray_close 0 rest = true ->
  match_here CRITERIA (String c s ++ rest) = None.
Proof.
  intros Hnone Hrest.
  destruct (match_here CRITERIA (String c s ++ rest)) as [g|] eqn:Hg;
    [|reflexivity].
  exfalso. apply match_here_sound in Hg as (r & Heq & Hm).
  apply append_eq_inv in Heq as [[m [Hg Hr]]|[m [Hs _]]].
  - destruct m as [|c' m].
    + rewrite append_nil_r in Hg. subst g.
      destruct (match_here_complete CRITERIA _ EmptyString Hm) as [g' Hg'].
      rewrite append_nil_r in Hg'. congruence.
    + pose proof (clause_open g _ _ Hm Hg ltac:(discriminate)
                    ltac:(discriminate)) as Hopen.
      pose proof (clause_depth g Hm) as Hd.
      rewrite Hg, depth_append in Hd.
      pose proof (no_stray_close_prefix 0 rest (String c' m) r Hrest Hr).
      lia.
  - destruct (match_here_complete CRITERIA g m Hm) as [g' Hg'].
    rewrite <- Hs in Hg'. congruence.
Qed.

(** The first clause of a line stays the one found when text that
    closes nothing it did not open follows on the line. *)
Lemma search_from_extend (s rest : string) (pos : nat) (m : match_object) :
  search_from CRITERIA s pos = Some m ->
  no_stray_close 0 rest = true ->
  search_from CRITERIA (s ++ rest) pos = Some m.
Proof.
  revert pos. induction s as [|c s IH]; intros pos Hs Hrest.
  - cbn in Hs. discriminate.
  - cbn [search_from] in Hs.
    destruct (match_here CRITERIA (String c s)) as [g|] eqn:Hhere.
    + rewrite append_cons.
      cbn [search_from]. rewrite <- append_cons.
      now rewrite (match_here_extend _ rest g Hhere).
    + rewrite append_cons. cbn [search_from]. rewrite <- append_cons.
      rewrite (match_here_none_extend c s rest Hhere Hrest).
      now apply IH.
Qed.

End ClauseFacts.

Section LaterClauses.

Lemma contains_append (a b : string) (c : ascii) :
  PyStr.contains (a ++ b) c = PyStr.contains a c || PyStr.contains b c.
Proof.
  induction a as [|x a IH]; [reflexivity|].
  rewrite append_cons. cbn [PyStr.contains]. rewrite IH. apply orb_assoc.
Qed.

Lemma criteria_lines_middle (pending : option string)
    (above below : list string) (line line' : string) :
  (forall p, criteria_line p line' = criteria_line p line) ->
  criteria_lines pending (above ++ line' :: below)
  = criteria_lines pending (above ++ line :: below).
Proof.
  intros Hline. revert pending.
  induction above as [|l above IH]; intros pending; cbn [app criteria_lines].
  - now rewrite Hline.
  - destruct (criteria_line pending l) as [[rec|] p]; now rewrite IH.
Qed.

Lemma split_three (above line below : string) (sep : ascii) :
  PyStr.contains line sep = false ->
  PyStr.split (above ++ String sep (line ++ String sep below)) sep
  = (PyStr.split above sep ++ line :: PyStr.split below sep)%list.
Proof.
  intros Hline.
  now rewrite !split_append, (split_one_line line sep Hline).
Qed.

End LaterClauses.

(** C10: on a line, only the first clause the search finds counts. Text
    that follows it on the line and closes no parenthesis it did not open,
    further clauses included, changes neither the match, nor the record
    yielded for the line, nor the condition left pending, nor the records
    of a text the line stands in. *)
Theorem later_clauses_ignored (pending : option string)
    (above line rest below : string) (m : Re.match_object) :
  Re.search CRITERIA line = Some m ->
  no_stray_close 0 rest = true ->
  PyStr.contains line "010" = false ->
  PyStr.contains rest "010" = false ->
  Re.search CRITERIA (line ++ rest) = Some m
  /\ criteria_line pending (line ++ rest) = criteria_line pending line
  /\ _get_criteria (above ++ String "010" ((line ++ rest) ++ String "010" below))
     = _get_criteria (above ++ String "010" (line ++ String "010" below)).
Proof.
  intros Hm Hrest Hline Hnl.
  assert (Re.search CRITERIA (line ++ rest) = Some m) as Hsearch
      by (now apply search_from_extend).
  assert (forall p, criteria_line p (line ++ rest) = criteria_line p line)
    as Hbody by (intros p; unfold criteria_line; now rewrite Hsearch, Hm).
  repeat split; [exact Hsearch | apply Hbody |].
  unfold _get_criteria. rewrite !split_three.
  - now apply criteria_lines_middle.
  - exact Hline.
  - rewrite contains_append, Hline, Hnl. reflexivity.
Qed.

Lemma later_clauses_ignored_witness :
  criteria_line None ("if (x > 1) { (OK, 'a') } (CRITICAL, 'b')")
  = criteria_line None "if (x > 1) {".
Proof.
  apply (later_clauses_ignored None EmptyString "if (x > 1) {"
           " (OK, 'a') } (CRITICAL, 'b')" EmptyString
           {| Re.start := 3; Re.group0 := "(x > 1)" |});
    vm_compute; reflexivity.
Defined.

(** ** [RemappingLoader] *)

Section RemappingFacts.
Import Py Yaml.

(** A mapping node constructs to a dictionary, which no dictionary
    accepts as a key. *)
Lemma mapping_node_unhashable (tag : string) (pairs : list (Node * Node))
    (key : Py.value) :
  construct_object (MappingNode tag pairs) = Ok key -> hashable key = false.
Proof.
  cbn [construct_object]. destruct (String.eqb tag map_tag).
  - destruct (construct_pairs construct_object pairs []); cbn;
      [intros [= <-]; reflexivity | discriminate].
  - destruct (_ || _); discriminate.
Qed.

End RemappingFacts.

(** C2, as stated, fails: in the document [{{ private_ssh_port }}: 22]
    the key node is the mapping of the whole expression, whose first key
    is itself a mapping, and the key built is the quoted expression of
    the printed node list, not of [private_ssh_port]. *)
Lemma bare_key_line_not_recovered :
  let document :=
    Yaml.MappingNode Yaml.map_tag
      [(Yaml.flow_expression "private_ssh_port",
        Yaml.ScalarNode Yaml.int_tag "22")] in
  Yaml.construct_document (Some document)
  = Py.Ok (Py.Dict
      [(Py.Str (PyStr.quoted
          ("{{ [(ScalarNode(tag='tag:yaml.org,2002:str', "
           ++ "value='private_ssh_port'), "
           ++ "ScalarNode(tag='tag:yaml.org,2002:null', value=''))] }}")),
        Py.Int 22)])
  /\ Yaml.construct_document (Some document)
     <> Py.Ok (Py.Dict
          [(Py.Str (PyStr.quoted "{{ private_ssh_port }}"), Py.Int 22)]).
Proof. split; [vm_compute; reflexivity | vm_compute; discriminate]. Qed.

(** C2, amended: where a key node of a mapping is itself a mapping whose
    first key is a scalar with text [text], as in the node of an unquoted
    expression [{{ text }}], the loader stores the value under the key
    ["{{ text }}"], its two quote characters included, and constructs the
    value as usual. An expression node alone, and one standing as a value
    in a document, load without an error. *)
Theorem unhashable_key_recovered (key_tag scalar_tag text : string)
    (first_value value_node : Yaml.Node) (more pairs : list (Yaml.Node * Yaml.Node))
    (mapping : Py.dict) (key value : Py.value) :
  let key_node :=
    Yaml.MappingNode key_tag
      ((Yaml.ScalarNode scalar_tag text, first_value) :: more) in
  let recovered := Py.Str (PyStr.quoted ("{{ " ++ text ++ " }}")) in
  Yaml.construct_object key_node = Py.Ok key ->
  Yaml.construct_object value_node = Py.Ok value ->
  Yaml.construct_pairs Yaml.construct_object
    ((key_node, value_node) :: pairs) mapping
  = Yaml.construct_pairs Yaml.construct_object pairs
      (Py.dict_set mapping recovered value)
  /\ Yaml.construct_mapping
       (Yaml.MappingNode Yaml.map_tag [(key_node, value_node)])
     = Py.Ok [(recovered, value)]
  /\ Yaml.construct_object (Yaml.flow_expression text)
     = Py.Ok (Py.Dict [(recovered, Py.None_)])
  /\ forall name,
       Yaml.construct_document
         (Some (Yaml.MappingNode Yaml.map_tag
                  [(Yaml.ScalarNode Yaml.str_tag name,
                    Yaml.flow_expression text)]))
       = Py.Ok (Py.Dict [(Py.Str name, Py.Dict [(recovered, Py.None_)])]).
Proof.
  intros key_node recovered Hkey Hvalue.
  assert (forall pairs' mapping',
    Yaml.construct_pairs Yaml.construct_object
      ((key_node, value_node) :: pairs') mapping'
    = Yaml.construct_pairs Yaml.construct_object pairs'
        (Py.dict_set mapping' recovered value)) as Hstep.
  { intros pairs' mapping'. cbn [Yaml.construct_pairs].
    rewrite Hkey. cbn [mbind Py.result_bind].
    rewrite (mapping_node_unhashable _ _ _ Hkey).
    cbn [Yaml.recover_key Yaml.format_value Yaml.construct_scalar_node].
    cbn [String.eqb Ascii.eqb Bool.eqb Yaml.str_tag mbind Py.result_bind].
    rewrite Hvalue. reflexivity. }
  split; [apply Hstep|]. split.
  - unfold Yaml.construct_mapping, Yaml.construct_mapping_with.
    rewrite Hstep. reflexivity.
  - split; [reflexivity|]. intros name. reflexivity.
Qed.

Lemma unhashable_key_recovered_witness :
  Yaml.construct_mapping
    (Yaml.MappingNode Yaml.map_tag
       [(Yaml.MappingNode Yaml.map_tag
           [(Yaml.ScalarNode Yaml.str_tag "private_ssh_port",
             Yaml.ScalarNode Yaml.null_tag EmptyString)],
         Yaml.ScalarNode Yaml.int_tag "22")])
  = Py.Ok [(Py.Str (PyStr.quoted "{{ private_ssh_port }}"), Py.Int 22)].
Proof.
  refine (proj1 (proj2 (unhashable_key_recovered Yaml.map_tag Yaml.str_tag
            "private_ssh_port" (Yaml.ScalarNode Yaml.null_tag EmptyString)
            (Yaml.ScalarNode Yaml.int_tag "22") [] [] []
            (Py.Dict [(Py.Str "private_ssh_port", Py.None_)]) (Py.Int 22)
            _ _)));
    vm_compute; reflexivity.
Defined.

(** ** The resolver *)

Section NameFacts.

Lemma remove_if_present (u : gset string) (item : string) :
  (if decide (item ∈ u) then u ∖ {[item]} else u) = u ∖ {[item]}.
Proof. destruct (decide (item ∈ u)); set_solver. Qed.

Lemma remove_ignored_spec (undeclared : gset string) (x : string) :
  x ∈ remove_ignored undeclared ↔ x ∈ undeclared ∧ x ∉ ignore.
Proof.
  unfold remove_ignored, ignore. cbn [foldl].
  rewrite !remove_if_present. set_solver.
Qed.

Lemma redirected_spec (undeclared : gset string) (x : string) :
  x ∈ redirected undeclared ↔
    (x ∈ undeclared ∧ x ≠ "warning_threshold" ∧ x ≠ "critical_threshold")
    ∨ (x = "maas_filesystem_warning_threshold"
       ∧ "warning_threshold" ∈ undeclared)
    ∨ (x = "maas_filesystem_critical_threshold"
       ∧ "critical_threshold" ∈ undeclared).
Proof.
  unfold redirected, redirect. cbn [foldl fst snd].
  destruct (decide ("warning_threshold" ∈ undeclared));
    destruct (decide ("critical_threshold" ∈ _)); set_solver.
Qed.

Lemma surviving_no_original (undeclared : gset string) (original target : string) :
  (original, target) ∈ redirect -> original ∉ surviving undeclared.
Proof.
  unfold surviving, redirect. intros Hin Hx.
  apply redirected_spec in Hx. set_solver.
Qed.

Lemma surviving_target (undeclared : gset string) (original target : string) :
  (original, target) ∈ redirect -> original ∈ undeclared ->
  target ∈ surviving undeclared.
Proof.
  unfold surviving, redirect. intros Hin Hx. apply redirected_spec.
  assert (original ∈ remove_ignored undeclared) as Hr.
  { apply remove_ignored_spec. unfold ignore. set_solver. }
  set_solver.
Qed.

Lemma apply_redirect_names (items : list (string * string))
    (undeclared undeclared' : gset string)
    (cfg cfg' : gmap string Py.value) :
  apply_redirect items undeclared cfg = Py.Ok (undeclared', cfg') ->
  undeclared'
  = foldl (fun u kv => if decide (kv.1 ∈ u) then u ∖ {[kv.1]} ∪ {[kv.2]} else u)
          undeclared items.
Proof.
  revert undeclared cfg. induction items as [|[k t] items IH];
    intros undeclared cfg Hrun; cbn [apply_redirect foldl fst snd] in *.
  - congruence.
  - case_decide.
    + destruct (cfg !! t); [|discriminate]. now apply IH in Hrun.
    + now apply IH in Hrun.
Qed.

Lemma apply_redirect_raises (items : list (string * string))
    (undeclared : gset string) (cfg : gmap string Py.value) (e : Py.exn) :
  apply_redirect items undeclared cfg = Py.Raise e -> e = Py.KeyError.
Proof.
  revert undeclared cfg. induction items as [|[k t] items IH];
    intros undeclared cfg Hrun; cbn [apply_redirect] in Hrun.
  - discriminate.
  - case_decide; [destruct (cfg !! t)|]; eauto. congruence.
Qed.

(** What the redirections leave in the configuration. *)
Lemma apply_redirect_config (undeclared undeclared' : gset string)
    (cfg cfg' : gmap string Py.value) :
  apply_redirect redirect undeclared cfg = Py.Ok (undeclared', cfg') ->
  (forall x, x ≠ "warning_threshold" -> x ≠ "critical_threshold" ->
             cfg' !! x = cfg !! x)
  /\ (forall original target, (original, target) ∈ redirect ->
        if decide (original ∈ undeclared)
        then is_Some (cfg !! target) /\ cfg' !! original = cfg !! target
        else cfg' !! original = cfg !! original).
Proof.
  unfold redirect. cbn [apply_redirect]. intros Hrun.
  repeat case_decide;
    repeat match type of Hrun with
           | context [?m !! ?k] =>
               let E := fresh "E" in destruct (m !! k) eqn:E;
               [|discriminate]
           end;
    injection Hrun as _ <-;
    (split;
     [intros x Hw Hc; now rewrite ?lookup_insert_ne by congruence
     |intros original target Hin;
      apply elem_of_cons in Hin as [[= -> ->]|Hin];
      [|apply elem_of_cons in Hin as [[= -> ->]|Hin];
        [|now apply elem_of_nil in Hin]];
      case_decide; simplify_map_eq; try set_solver; eauto]).
Qed.

End NameFacts.

Section DictFacts.
Import Py.

Lemma key_eqb_sym (a b : Py.value) : key_eqb a b = key_eqb b a.
Proof.
  destruct a, b; cbn; try reflexivity;
    first [apply Z.eqb_sym | apply String.eqb_sym | idtac].
  now destruct b, b0.
Qed.

Lemma key_eqb_trans (a b c : Py.value) :
  key_eqb a b = true -> key_eqb a c = key_eqb b c.
Proof.
  destruct a, b; cbn; try discriminate; intros Hab;
    try (apply Z.eqb_eq in Hab); try (apply String.eqb_eq in Hab);
    try (apply Bool.eqb_prop in Hab); subst; try reflexivity;
    destruct c; cbn; try reflexivity.
  - now destruct b0, b.
  - now destruct b0, b.
Qed.

Lemma key_eqb_refl (k : Py.value) : hashable k = true -> key_eqb k k = true.
Proof.
  destruct k; cbn; try discriminate; intros _;
    [reflexivity | apply Bool.eqb_reflx | apply Z.eqb_refl
    | apply String.eqb_refl].
Qed.

Lemma dict_get_key {A : Type} (d : list (Py.value * A)) (a b : Py.value) :
  key_eqb a b = true -> dict_get d a = dict_get d b.
Proof.
  intros Hab. induction d as [|[k v] d IH]; [reflexivity|]. cbn.
  rewrite IH. rewrite (key_eqb_sym k a), (key_eqb_sym k b).
  now rewrite (key_eqb_trans a b k Hab).
Qed.

Lemma dict_get_set {A : Type} (d : list (Py.value * A)) (k k' : Py.value)
    (v : A) :
  dict_get (dict_set d k v) k'
  = if key_eqb k k' then Some v else dict_get d k'.
Proof.
  induction d as [|[k0 v0] d IH]; [reflexivity|]. cbn [dict_set].
  destruct (key_eqb k0 k) eqn:Hk0; cbn [dict_get].
  - rewrite (key_eqb_trans k0 k k' Hk0). now destruct (key_eqb k k').
  - rewrite IH. destruct (key_eqb k0 k') eqn:Hk0', (key_eqb k k') eqn:Hkk';
      try reflexivity.
    rewrite (key_eqb_trans k0 k' k Hk0'), key_eqb_sym, Hkk' in Hk0.
    discriminate.
Qed.

Lemma dict_set_elem {A : Type} (d : list (Py.value * A)) (k k0 : Py.value)
    (v x : A) :
  (k0, x) ∈ dict_set d k v -> x = v \/ (k0, x) ∈ d.
Proof.
  induction d as [|[k1 v1] d IH]; cbn [dict_set]; intros Hin.
  - apply list_elem_of_singleton in Hin as [= -> ->]. now left.
  - destruct (key_eqb k1 k).
    + apply elem_of_cons in Hin as [[= -> ->]|Hin]; [now left|].
      right. now apply elem_of_cons; right.
    + apply elem_of_cons in Hin as [[= -> ->]|Hin].
      * right. apply elem_of_cons. now left.
      * destruct (IH Hin) as [->|Hd]; [now left|].
        right. apply elem_of_cons. now right.
Qed.

Lemma dict_get_elem {A : Type} (d : list (Py.value * A)) (k : Py.value)
    (x : A) :
  dict_get d k = Some x -> exists k0, (k0, x) ∈ d.
Proof.
  induction d as [|[k1 v1] d IH]; cbn; [discriminate|].
  destruct (key_eqb k1 k).
  - intros [= ->]. exists k1. apply elem_of_cons. now left.
  - intros Hget. destruct (IH Hget) as [k0 Hin]. exists k0.
    apply elem_of_cons. now right.
Qed.

End DictFacts.

Section DefaultsFacts.

(** The defaults do not depend on the order the names are visited in. *)
Lemma collect_defaults_perm (names1 names2 : list string)
    (cfg : gmap string Py.value) (acc : gmap string DetailValue) :
  names1 ≡ₚ names2 ->
  collect_defaults names1 cfg acc = collect_defaults names2 cfg acc.
Proof.
  intros Hperm. revert acc.
  induction Hperm as [|x l l' _ IH|x y l|l l' l'' _ IH1 _ IH2]; intros acc;
    cbn [collect_defaults].
  - reflexivity.
  - destruct (cfg !! x); [apply IH | reflexivity].
  - destruct (cfg !! x) as [vx|] eqn:Hx, (cfg !! y) as [vy|] eqn:Hy;
      try reflexivity.
    destruct (decide (x = y)) as [->|Hne].
    + now replace vy with vx by congruence.
    + now rewrite insert_insert_ne by congruence.
  - now rewrite IH1.
Qed.

Lemma collect_defaults_lookup (names : list string)
    (cfg : gmap string Py.value) (acc defaults : gmap string DetailValue) :
  collect_defaults names cfg acc = Py.Ok defaults ->
  forall k, defaults !! k
            = if decide (k ∈ names) then Default <$> cfg !! k else acc !! k.
Proof.
  revert acc. induction names as [|key names IH]; intros acc Hrun k;
    cbn [collect_defaults] in Hrun.
  - injection Hrun as <-. now rewrite decide_False by apply not_elem_of_nil.
  - destruct (cfg !! key) as [v|] eqn:Hkey; [|discriminate].
    rewrite (IH _ Hrun k). destruct (decide (k = key)) as [->|Hne].
    + rewrite (decide_True (P := key ∈ key :: names)) by (apply elem_of_cons; now left).
      case_decide; [reflexivity|]. now rewrite lookup_insert_eq, Hkey.
    + rewrite lookup_insert_ne by congruence.
      destruct (decide (k ∈ names)) as [Hin|Hnin].
      * now rewrite decide_True by (apply elem_of_cons; now right).
      * rewrite decide_False; [reflexivity|].
        intros Hin. apply elem_of_cons in Hin as [?|?]; contradiction.
Qed.

Lemma collect_defaults_present (names : list string)
    (cfg : gmap string Py.value) (acc defaults : gmap string DetailValue) :
  collect_defaults names cfg acc = Py.Ok defaults ->
  forall k, k ∈ names -> is_Some (cfg !! k).
Proof.
  revert acc. induction names as [|key names IH]; intros acc Hrun k Hin;
    cbn [collect_defaults] in Hrun.
  - now apply elem_of_nil in Hin.
  - destruct (cfg !! key) as [v|] eqn:Hkey; [|discriminate].
    apply elem_of_cons in Hin as [->|Hin]; [now rewrite Hkey | eauto].
Qed.

Lemma collect_defaults_missing (names : list string)
    (cfg : gmap string Py.value) (acc : gmap string DetailValue) (k : string) :
  k ∈ names -> cfg !! k = None ->
  collect_defaults names cfg acc = Py.Raise Py.KeyError.
Proof.
  revert acc. induction names as [|key names IH]; intros acc Hin Hk;
    cbn [collect_defaults].
  - now apply elem_of_nil in Hin.
  - destruct (cfg !! key) as [v|] eqn:Hkey; [|reflexivity].
    apply elem_of_cons in Hin as [->|Hin]; [congruence | now apply IH].
Qed.

End DefaultsFacts.

Section EntryFacts.
Context {jinja : Jinja2} {order : SetOrder}.
Import Py.

Lemma iterate_elem (s : gset string) (x : string) : x ∈ iterate s ↔ x ∈ s.
Proof. rewrite (iterate_perm s). apply elem_of_elements. Qed.

Lemma resolve_names_ok (env : Environment) (value : Py.value)
    (cfg cfg' : gmap string Py.value) (names : gset string) :
  resolve_names env value cfg = Ok (names, cfg') ->
  exists undeclared,
    find_undeclared_variables env value = Ok undeclared
    /\ names = surviving undeclared
    /\ apply_redirect redirect (remove_ignored undeclared) cfg
       = Ok (surviving undeclared, cfg').
Proof.
  unfold resolve_names. intros Hrun.
  destruct (find_undeclared_variables env value) as [undeclared|]; [|discriminate].
  cbn [mbind result_bind] in Hrun. exists undeclared.
  pose proof (apply_redirect_names _ _ _ _ _ Hrun) as Hnames.
  fold (redirected (remove_ignored undeclared)) in Hnames.
  fold (surviving undeclared) in Hnames. subst names. auto.
Qed.

(** What one turn of the loop does when it returns. *)
Lemma check_entry_inv (env : Environment) (alarms cds : Py.dict)
    (details details' : details_t) (cfg cfg' : gmap string Py.value)
    (key value : Py.value) :
  check_entry env alarms cds (details, cfg) (key, value)
  = Ok (details', cfg') ->
  (skipped_key key = true /\ details' = details /\ cfg' = cfg)
  \/ (skipped_key key = false
      /\ exists undeclared defaults,
           find_undeclared_variables env value = Ok undeclared
           /\ apply_redirect redirect (remove_ignored undeclared) cfg
              = Ok (surviving undeclared, cfg')
           /\ collect_defaults (iterate (surviving undeclared)) cfg' ∅
              = Ok defaults
           /\ ((dict_mem cds key = true /\ defaults = ∅ /\ details' = details)
               \/ exists criteria,
                    details'
                    = dict_set details (details_key cds key)
                        (stored criteria
                           (defaults
                            ∪ default ∅ (dict_get details (details_key cds key)))))).
Proof.
  unfold check_entry. fold (skipped_key key). fold (details_key cds key).
  destruct (skipped_key key); [intros [= <- <-]; left; auto|].
  intros Hrun. right. split; [reflexivity|].
  destruct (resolve_names env value cfg) as [[names cfg1]|] eqn:Hnames;
    [|discriminate].
  apply resolve_names_ok in Hnames as (undeclared & Hfind & -> & Hred).
  cbn [mbind result_bind] in Hrun.
  destruct (collect_defaults _ cfg1 ∅) as [defaults|] eqn:Hdefaults;
    [|discriminate].
  cbn [mbind result_bind] in Hrun.
  exists undeclared, defaults.
  assert (match dict_get details (details_key cds key) with
          | Some present => defaults ∪ present
          | None => defaults
          end
          = defaults ∪ default ∅ (dict_get details (details_key cds key)))
    as Hcurrent.
  { destruct (dict_get details _); cbn; [reflexivity|].
    now rewrite (right_id_L ∅ (∪)). }
  rewrite Hcurrent in Hrun. clear Hcurrent.
  destruct (dict_mem cds key && bool_decide (defaults = ∅)) eqn:Hskip.
  - apply andb_true_iff in Hskip as [Hmem Hempty].
    apply bool_decide_eq_true in Hempty. injection Hrun as <- <-.
    repeat split; auto.
  - destruct (dict_mem alarms (details_key cds key)).
    + destruct (render_source value cfg1) as [rendered|]; [|discriminate].
      cbn [mbind result_bind] in Hrun. injection Hrun as <- <-.
      repeat split; auto. right.
      exists (Some (_get_criteria rendered)). reflexivity.
    + injection Hrun as <- <-. repeat split; auto. right.
      exists None. reflexivity.
Qed.

Lemma agree_refl (cfg : gmap string Py.value) : agree cfg cfg.
Proof. intros x _ _. reflexivity. Qed.

Lemma agree_trans (a b c : gmap string Py.value) :
  agree a b -> agree b c -> agree a c.
Proof. intros Hab Hbc x Hw Hc. now rewrite (Hbc x Hw Hc), (Hab x Hw Hc). Qed.

Lemma surviving_plain (undeclared : gset string) (name : string) :
  name ∈ surviving undeclared ->
  name ≠ "warning_threshold" /\ name ≠ "critical_threshold".
Proof.
  intros Hin. split; intros ->.
  - apply (surviving_no_original undeclared "warning_threshold"
             "maas_filesystem_warning_threshold"); [|exact Hin].
    unfold redirect. set_solver.
  - apply (surviving_no_original undeclared "critical_threshold"
             "maas_filesystem_critical_threshold"); [|exact Hin].
    unfold redirect. set_solver.
Qed.

Lemma check_entry_agree (env : Environment) (alarms cds : Py.dict)
    (details details' : details_t) (cfg cfg' : gmap string Py.value)
    (entry : Py.value * Py.value) :
  check_entry env alarms cds (details, cfg) entry = Ok (details', cfg') ->
  agree cfg cfg'.
Proof.
  destruct entry as [key value]. intros Hrun.
  apply check_entry_inv in Hrun
    as [(_ & _ & ->)|(_ & U & defaults & _ & Hred & _)].
  - apply agree_refl.
  - now apply apply_redirect_config in Hred as [Hsame _].
Qed.

Lemma defaults_lookup (names : gset string) (cfg : gmap string Py.value)
    (defaults : gmap string DetailValue) (k : string) :
  collect_defaults (iterate names) cfg ∅ = Ok defaults ->
  defaults !! k = if decide (k ∈ names) then Default <$> cfg !! k else None.
Proof.
  intros Hrun. rewrite (collect_defaults_lookup _ _ _ _ Hrun k).
  destruct (decide (k ∈ names)) as [Hin|Hnin].
  - now rewrite decide_True by (now apply iterate_elem).
  - rewrite decide_False by (now rewrite iterate_elem). apply lookup_empty.
Qed.

Lemma check_entry_no_originals (env : Environment) (alarms cds : Py.dict)
    (details details' : details_t) (cfg cfg' : gmap string Py.value)
    (entry : Py.value * Py.value) :
  check_entry env alarms cds (details, cfg) entry = Ok (details', cfg') ->
  no_originals details -> no_originals details'.
Proof.
  destruct entry as [key value]. intros Hrun Hinv.
  apply check_entry_inv in Hrun
    as [(_ & -> & _)|(_ & U & defaults & _ & _ & Hdef & Hout)];
    [exact Hinv|].
  destruct Hout as [(_ & _ & ->)|[criteria ->]]; [exact Hinv|].
  intros k alarm original target Hin Hred.
  apply dict_set_elem in Hin as [->|Hin];
    [|exact (Hinv _ _ _ _ Hin Hred)].
  assert ((defaults ∪ default ∅ (dict_get details (details_key cds key)))
            !! original = None) as Hnone.
  { apply lookup_union_None. split.
    - rewrite (defaults_lookup _ _ _ original Hdef).
      rewrite decide_False; [reflexivity|].
      now apply (surviving_no_original U original target).
    - destruct (dict_get details (details_key cds key)) as [present|] eqn:Hget;
        cbn; [|apply lookup_empty].
      apply dict_get_elem in Hget as [k0 Hk0].
      exact (Hinv _ _ _ _ Hk0 Hred). }
  destruct criteria as [records|]; cbn [stored]; [|exact Hnone].
  rewrite lookup_insert_ne; [exact Hnone|].
  unfold redirect in Hred. set_solver.
Qed.

(** A default once filed stays filed with the same value. *)
Lemma check_entry_keeps (env : Environment) (alarms cds : Py.dict)
    (details details' : details_t) (cfg cfg' : gmap string Py.value)
    (entry : Py.value * Py.value) (k : Py.value)
    (alarm : gmap string DetailValue) (name : string) (v : Py.value) :
  check_entry env alarms cds (details, cfg) entry = Ok (details', cfg') ->
  dict_get details k = Some alarm -> alarm !! name = Some (Default v) ->
  name ≠ "_criteria" ->
  name ≠ "warning_threshold" -> name ≠ "critical_threshold" ->
  cfg !! name = Some v ->
  exists alarm', dict_get details' k = Some alarm'
                 /\ alarm' !! name = Some (Default v).
Proof.
  destruct entry as [key value]. intros Hrun Hget Hname Hcrit Hw Hc Hcfg.
  apply check_entry_inv in Hrun
    as [(_ & -> & _)|(_ & U & defaults & _ & Hred & Hdef & Hout)];
    [eauto|].
  destruct Hout as [(_ & _ & ->)|[criteria ->]]; [eauto|].
  rewrite dict_get_set.
  destruct (key_eqb (details_key cds key) k) eqn:Hk; [|eauto].
  eexists. split; [reflexivity|].
  rewrite (dict_get_key details _ _ Hk), Hget. cbn [default].
  assert ((defaults ∪ alarm) !! name = Some (Default v)) as Hunion.
  { destruct (defaults !! name) as [d|] eqn:Hd.
    - rewrite (lookup_union_Some_l _ _ _ _ Hd).
      rewrite (defaults_lookup _ _ _ name Hdef) in Hd.
      apply apply_redirect_config in Hred as [Hsame _].
      rewrite (Hsame name Hw Hc), Hcfg in Hd.
      destruct (decide (name ∈ surviving U)); cbn in Hd; congruence.
    - now rewrite lookup_union_r. }
  destruct criteria as [records|]; cbn [stored]; [|exact Hunion].
  now rewrite lookup_insert_ne.
Qed.

(** A turn of the loop that returns has filed every surviving name. *)
Lemma check_entry_files (env : Environment) (alarms cds : Py.dict)
    (details details' : details_t) (cfg cfg' : gmap string Py.value)
    (key value : Py.value) (undeclared : gset string) (name : string) :
  check_entry env alarms cds (details, cfg) (key, value)
  = Ok (details', cfg') ->
  skipped_key key = false -> hashable key = true ->
  find_undeclared_variables env value = Ok undeclared ->
  name ∈ surviving undeclared -> name ≠ "_criteria" ->
  exists alarm v,
    cfg !! name = Some v
    /\ dict_get details' (details_key cds key) = Some alarm
    /\ alarm !! name = Some (Default v).
Proof.
  intros Hrun Hskip Hhash Hfind Hin Hcrit.
  apply check_entry_inv in Hrun
    as [(Hs & _)|(_ & U & defaults & Hfind' & Hred & Hdef & Hout)];
    [congruence|].
  assert (U = undeclared) as -> by congruence.
  destruct (surviving_plain _ _ Hin) as [Hw Hc].
  pose proof (collect_defaults_present _ _ _ _ Hdef name) as [v Hv];
    [now apply iterate_elem|].
  assert (defaults !! name = Some (Default v)) as Hd.
  { rewrite (defaults_lookup _ _ _ name Hdef), decide_True by assumption.
    now rewrite Hv. }
  apply apply_redirect_config in Hred as [Hsame _].
  rewrite (Hsame name Hw Hc) in Hv.
  destruct Hout as [(_ & -> & _)|[criteria ->]];
    [now rewrite lookup_empty in Hd|].
  eexists _, v. split; [exact Hv|]. rewrite dict_get_set.
  assert (hashable (details_key cds key) = true) as Hk
      by (unfold details_key; now destruct (dict_mem cds key)).
  rewrite (key_eqb_refl _ Hk). split; [reflexivity|].
  destruct criteria as [records|]; cbn [stored];
    rewrite ?lookup_insert_ne by congruence;
    now apply lookup_union_Some_l.
Qed.

(** A turn of the loop with a surviving name that has no default
    raises. *)
Lemma check_entry_missing (env : Environment) (alarms cds : Py.dict)
    (details : details_t) (cfg : gmap string Py.value)
    (key value : Py.value) (undeclared : gset string) (name : string) :
  skipped_key key = false ->
  find_undeclared_variables env value = Ok undeclared ->
  name ∈ surviving undeclared -> cfg !! name = None ->
  check_entry env alarms cds (details, cfg) (key, value) = Raise KeyError.
Proof.
  intros Hskip Hfind Hin Hnone. unfold check_entry.
  fold (skipped_key key). rewrite Hskip. unfold resolve_names.
  rewrite Hfind. cbn [mbind result_bind].
  destruct (apply_redirect redirect (remove_ignored undeclared) cfg)
    as [[names cfg1]|e] eqn:Hred; cbn [mbind result_bind].
  - pose proof (apply_redirect_names _ _ _ _ _ Hred) as Hnames.
    fold (redirected (remove_ignored undeclared)) in Hnames.
    fold (surviving undeclared) in Hnames. subst names.
    destruct (surviving_plain _ _ Hin) as [Hw Hc].
    apply apply_redirect_config in Hred as [Hsame _].
    rewrite (collect_defaults_missing _ _ _ name); [reflexivity | |].
    + now apply iterate_elem.
    + now rewrite (Hsame name Hw Hc).
  - now rewrite (apply_redirect_raises _ _ _ _ Hred).
Qed.

(** A redirection that fires copies the target's value. *)
Lemma check_entry_redirects (env : Environment) (alarms cds : Py.dict)
    (details details' : details_t) (cfg cfg' : gmap string Py.value)
    (key value : Py.value) (undeclared : gset string)
    (original target : string) :
  check_entry env alarms cds (details, cfg) (key, value)
  = Ok (details', cfg') ->
  skipped_key key = false ->
  find_undeclared_variables env value = Ok undeclared ->
  (original, target) ∈ redirect -> original ∈ undeclared ->
  is_Some (cfg !! target) /\ cfg' !! original = cfg !! target.
Proof.
  intros Hrun Hskip Hfind Hred Hin.
  apply check_entry_inv in Hrun
    as [(Hs & _)|(_ & U & defaults & Hfind' & Hrun & _)]; [congruence|].
  assert (U = undeclared) as -> by congruence.
  apply apply_redirect_config in Hrun as [_ Hcopy].
  specialize (Hcopy original target Hred).
  rewrite decide_True in Hcopy; [exact Hcopy|].
  apply remove_ignored_spec. split; [exact Hin|].
  unfold redirect, ignore in *. set_solver.
Qed.

Lemma check_entry_copy_stays (env : Environment) (alarms cds : Py.dict)
    (details details' : details_t) (cfg cfg' : gmap string Py.value)
    (entry : Py.value * Py.value) (original target : string) (v : Py.value) :
  check_entry env alarms cds (details, cfg) entry = Ok (details', cfg') ->
  (original, target) ∈ redirect ->
  cfg !! target = Some v -> cfg !! original = Some v ->
  cfg' !! original = Some v.
Proof.
  destruct entry as [key value]. intros Hrun Hred Ht Ho.
  apply check_entry_inv in Hrun
    as [(_ & _ & ->)|(_ & U & defaults & _ & Hrun & _)]; [exact Ho|].
  apply apply_redirect_config in Hrun as [_ Hcopy].
  specialize (Hcopy original target Hred).
  destruct (decide (original ∈ remove_ignored U)) as [_|_].
  - destruct Hcopy as [_ ->]. exact Ht.
  - now rewrite Hcopy.
Qed.

End EntryFacts.

Section LoopFacts.
Context {jinja : Jinja2} {order : SetOrder}.
Import Py.

Lemma check_entries_cons (env : Environment) (alarms cds : Py.dict)
    (entry : Py.value * Py.value) (entries : Py.dict)
    (state state' : details_t * gmap string Py.value) :
  check_entries env alarms cds (entry :: entries) state = Ok state' ->
  exists middle,
    check_entry env alarms cds state entry = Ok middle
    /\ check_entries env alarms cds entries middle = Ok state'.
Proof.
  cbn [check_entries]. destruct (check_entry env alarms cds state entry)
    as [middle|]; [|discriminate].
  intros Hrun. exists middle. auto.
Qed.

Lemma check_entries_no_originals (env : Environment) (alarms cds : Py.dict)
    (entries : Py.dict) (details details' : details_t)
    (cfg cfg' : gmap string Py.value) :
  check_entries env alarms cds entries (details, cfg) = Ok (details', cfg') ->
  no_originals details -> no_originals details'.
Proof.
  revert details cfg. induction entries as [|entry entries IH];
    intros details cfg Hrun Hinv.
  - now injection Hrun as <- _.
  - apply check_entries_cons in Hrun as ([d1 c1] & Hstep & Hrest).
    eapply IH; [eassumption|]. eapply check_entry_no_originals; eassumption.
Qed.

Lemma check_entries_keep (env : Environment) (alarms cds : Py.dict)
    (entries : Py.dict) (details details' : details_t)
    (cfg cfg' : gmap string Py.value) (k : Py.value)
    (alarm : gmap string DetailValue) (name : string) (v : Py.value) :
  check_entries env alarms cds entries (details, cfg) = Ok (details', cfg') ->
  dict_get details k = Some alarm -> alarm !! name = Some (Default v) ->
  name ≠ "_criteria" ->
  name ≠ "warning_threshold" -> name ≠ "critical_threshold" ->
  cfg !! name = Some v ->
  exists alarm', dict_get details' k = Some alarm'
                 /\ alarm' !! name = Some (Default v).
Proof.
  revert details cfg alarm. induction entries as [|entry entries IH];
    intros details cfg alarm Hrun Hget Hname Hcrit Hw Hc Hcfg.
  - injection Hrun as <- _. eauto.
  - apply check_entries_cons in Hrun as ([d1 c1] & Hstep & Hrest).
    destruct (check_entry_keeps _ _ _ _ _ _ _ _ _ _ _ _ Hstep Hget Hname
                Hcrit Hw Hc Hcfg) as (alarm1 & Hget1 & Hname1).
    eapply IH; try eassumption.
    now rewrite (check_entry_agree _ _ _ _ _ _ _ _ Hstep name Hw Hc).
Qed.

Lemma check_entries_file (env : Environment) (alarms cds : Py.dict)
    (entries : Py.dict) (details details' : details_t)
    (cfg cfg' : gmap string Py.value) (key value : Py.value)
    (undeclared : gset string) (name : string) :
  check_entries env alarms cds entries (details, cfg) = Ok (details', cfg') ->
  (key, value) ∈ entries ->
  skipped_key key = false -> hashable key = true ->
  find_undeclared_variables env value = Ok undeclared ->
  name ∈ surviving undeclared -> name ≠ "_criteria" ->
  exists alarm v,
    cfg !! name = Some v
    /\ dict_get details' (details_key cds key) = Some alarm
    /\ alarm !! name = Some (Default v).
Proof.
  revert details cfg. induction entries as [|entry entries IH];
    intros details cfg Hrun Hin Hskip Hhash Hfind Hname Hcrit.
  - now apply elem_of_nil in Hin.
  - destruct (surviving_plain _ _ Hname) as [Hw Hc].
    apply check_entries_cons in Hrun as ([d1 c1] & Hstep & Hrest).
    apply elem_of_cons in Hin as [<-|Hin].
    + destruct (check_entry_files _ _ _ _ _ _ _ _ _ _ _ Hstep Hskip Hhash
                  Hfind Hname Hcrit) as (alarm & v & Hv & Hget & Halarm).
      destruct (check_entries_keep _ _ _ _ _ _ _ _ _ _ _ _ Hrest Hget Halarm
                  Hcrit Hw Hc) as (alarm' & Hget' & Halarm').
      * now rewrite (check_entry_agree _ _ _ _ _ _ _ _ Hstep name Hw Hc).
      * eauto.
    + destruct (IH _ _ Hrest Hin Hskip Hhash Hfind Hname Hcrit)
        as (alarm & v & Hv & Hget & Halarm).
      rewrite (check_entry_agree _ _ _ _ _ _ _ _ Hstep name Hw Hc) in Hv.
      eauto.
Qed.

Lemma check_entries_copy_stays (env : Environment) (alarms cds : Py.dict)
    (entries : Py.dict) (details details' : details_t)
    (cfg cfg' : gmap string Py.value) (original target : string)
    (v : Py.value) :
  check_entries env alarms cds entries (details, cfg) = Ok (details', cfg') ->
  (original, target) ∈ redirect ->
  cfg !! target = Some v -> cfg !! original = Some v ->
  cfg' !! original = Some v.
Proof.
  revert details cfg. induction entries as [|entry entries IH];
    intros details cfg Hrun Hred Ht Ho.
  - now injection Hrun as _ <-.
  - apply check_entries_cons in Hrun as ([d1 c1] & Hstep & Hrest).
    eapply IH; [eassumption | assumption | |].
    + rewrite (check_entry_agree _ _ _ _ _ _ _ _ Hstep target); [exact Ht|..];
        intros ->; unfold redirect in Hred; set_solver.
    + eapply check_entry_copy_stays; eassumption.
Qed.

Lemma check_entries_redirect (env : Environment) (alarms cds : Py.dict)
    (entries : Py.dict) (details details' : details_t)
    (cfg cfg' : gmap string Py.value) (key value : Py.value)
    (undeclared : gset string) (original target : string) :
  check_entries env alarms cds entries (details, cfg) = Ok (details', cfg') ->
  (key, value) ∈ entries -> skipped_key key = false ->
  find_undeclared_variables env value = Ok undeclared ->
  (original, target) ∈ redirect -> original ∈ undeclared ->
  exists v, cfg !! target = Some v /\ cfg' !! original = Some v.
Proof.
  revert details cfg. induction entries as [|entry entries IH];
    intros details cfg Hrun Hin Hskip Hfind Hred Ho.
  - now apply elem_of_nil in Hin.
  - assert (target ≠ "warning_threshold" /\ target ≠ "critical_threshold")
      as [Hw Hc] by (unfold redirect in Hred; set_solver).
    apply check_entries_cons in Hrun as ([d1 c1] & Hstep & Hrest).
    pose proof (check_entry_agree _ _ _ _ _ _ _ _ Hstep target Hw Hc) as Ht.
    apply elem_of_cons in Hin as [<-|Hin].
    + destruct (check_entry_redirects _ _ _ _ _ _ _ _ _ _ _ _ Hstep Hskip
                  Hfind Hred Ho) as [[v Hv] Hcopy].
      exists v. split; [exact Hv|].
      eapply check_entries_copy_stays; try eassumption; congruence.
    + destruct (IH _ _ Hrest Hin Hskip Hfind Hred Ho) as (v & Hv & Hcopy).
      exists v. split; [congruence | exact Hcopy].
Qed.

Lemma check_entries_missing (env : Environment) (alarms cds : Py.dict)
    (entries : Py.dict) (details : details_t) (cfg : gmap string Py.value)
    (key value : Py.value) (undeclared : gset string) (name : string) :
  (key, value) ∈ entries -> skipped_key key = false ->
  find_undeclared_variables env value = Ok undeclared ->
  name ∈ surviving undeclared -> cfg !! name = None ->
  exists e, check_entries env alarms cds entries (details, cfg) = Raise e.
Proof.
  revert details cfg. induction entries as [|entry entries IH];
    intros details cfg Hin Hskip Hfind Hname Hnone.
  - now apply elem_of_nil in Hin.
  - destruct (surviving_plain _ _ Hname) as [Hw Hc].
    cbn [check_entries]. apply elem_of_cons in Hin as [<-|Hin].
    + rewrite (check_entry_missing _ _ _ _ _ _ _ _ _ Hskip Hfind Hname Hnone).
      eexists. reflexivity.
    + destruct (check_entry env alarms cds (details, cfg) entry)
        as [[d1 c1]|e] eqn:Hstep; [|eexists; reflexivity].
      cbn [mbind result_bind]. apply IH; try assumption.
      now rewrite (check_entry_agree _ _ _ _ _ _ _ _ Hstep name Hw Hc).
Qed.

Lemma get_check_details_ok (rendered_yaml : Py.value)
    (cfg cfg' : gmap string Py.value) (env : Environment)
    (alarms cds : Py.dict) (details' : details_t) :
  check_items rendered_yaml = Ok (alarms, cds) ->
  _get_check_details rendered_yaml cfg env = Ok (details', cfg') ->
  check_entries env alarms cds (alarms ++ cds)%list ([], cfg)
  = Ok (details', cfg').
Proof. unfold _get_check_details. now intros ->. Qed.

End LoopFacts.

Section OrderFacts.
Context {jinja : Jinja2}.
Variables first second : SetOrder.
Import Py.

Lemma iterate_any_order (names : gset string) :
  @iterate first names ≡ₚ @iterate second names.
Proof. now rewrite !iterate_perm. Qed.

Lemma check_entry_any_order (env : Environment) (alarms cds : Py.dict)
    (state : details_t * gmap string Py.value) (entry : Py.value * Py.value) :
  check_entry (order := first) env alarms cds state entry
  = check_entry (order := second) env alarms cds state entry.
Proof.
  unfold check_entry. destruct state as [details cfg], entry as [key value].
  destruct (_ || _); [reflexivity|].
  destruct (resolve_names env value cfg) as [[names cfg1]|]; [|reflexivity].
  cbn [mbind result_bind].
  now rewrite (collect_defaults_perm _ _ cfg1 ∅ (iterate_any_order names)).
Qed.

Lemma check_entries_any_order (env : Environment) (alarms cds : Py.dict)
    (entries : Py.dict) (state : details_t * gmap string Py.value) :
  check_entries (order := first) env alarms cds entries state
  = check_entries (order := second) env alarms cds entries state.
Proof.
  revert state. induction entries as [|entry entries IH]; intros state;
    [reflexivity|].
  cbn [check_entries]. rewrite check_entry_any_order.
  destruct (check_entry _ _ _ _ _); cbn [mbind result_bind];
    [apply IH | reflexivity].
Qed.

Lemma get_check_details_any_order (rendered_yaml : Py.value)
    (cfg : gmap string Py.value) (env : Environment) :
  _get_check_details (order := first) rendered_yaml cfg env
  = _get_check_details (order := second) rendered_yaml cfg env.
Proof.
  unfold _get_check_details.
  destruct (check_items rendered_yaml) as [[alarms cds]|]; [|reflexivity].
  apply check_entries_any_order.
Qed.

Context {yaml : PyYAML}.

Lemma check_template_any_order (env : Environment) (name : string)
    (cfg : gmap string Py.value) :
  check_template (order := first) env name cfg
  = check_template (order := second) env name cfg.
Proof.
  unfold check_template.
  destruct (render_template env name); [|reflexivity].
  cbn [mbind result_bind]. destruct (compose a); [|reflexivity].
  cbn [mbind result_bind].
  destruct (Yaml.construct_document a0); [|reflexivity].
  cbn [mbind result_bind]. now rewrite get_check_details_any_order.
Qed.

Lemma check_templates_any_order (env : Environment)
    (files : list (string * string)) (cfg : gmap string Py.value) :
  check_templates (order := first) env files cfg
  = check_templates (order := second) env files cfg.
Proof.
  revert cfg. induction files as [|[name text] files IH]; intros cfg;
    [reflexivity|].
  cbn [check_templates]. rewrite check_template_any_order.
  destruct (String.eqb name _); [apply IH|].
  destruct (String.eqb name _); [apply IH|].
  destruct (check_template _ _ _) as [[[label details] cfg1]|];
    [|reflexivity].
  now rewrite IH.
Qed.

End OrderFacts.

(** C3: where an entry the loop reads has a surviving free variable with
    no default in the configuration, the turn of the loop for that entry
    raises [KeyError] whatever was filed before, and
    [_get_check_details] raises: it never returns a dictionary that
    leaves the variable out. *)
Theorem missing_default_raises {jinja : Jinja2} {order : SetOrder}
    (rendered_yaml : Py.value) (cfg : gmap string Py.value)
    (env : Environment) (alarms cds : Py.dict) (key value : Py.value)
    (undeclared : gset string) (name : string) :
  check_items rendered_yaml = Py.Ok (alarms, cds) ->
  (key, value) ∈ (alarms ++ cds)%list ->
  skipped_key key = false ->
  find_undeclared_variables env value = Py.Ok undeclared ->
  name ∈ surviving undeclared ->
  cfg !! name = None ->
  (forall details cfg_now,
     agree cfg cfg_now ->
     check_entry env alarms cds (details, cfg_now) (key, value)
     = Py.Raise Py.KeyError)
  /\ exists e, _get_check_details rendered_yaml cfg env = Py.Raise e.
Proof.
  intros Hitems Hin Hskip Hfind Hname Hnone. split.
  - intros details cfg_now Hagree.
    destruct (surviving_plain _ _ Hname) as [Hw Hc].
    eapply check_entry_missing; try eassumption.
    now rewrite (Hagree name Hw Hc).
  - unfold _get_check_details. rewrite Hitems. cbn [mbind Py.result_bind].
    eapply check_entries_missing; eassumption.
Qed.

Lemma missing_default_raises_witness :
  exists e,
    _get_check_details (jinja := one_name_engine) (order := elements_order)
      (one_alarm_check "disk" "absent_name") ∅ no_environment
    = Py.Raise e.
Proof.
  refine (proj2 (missing_default_raises (jinja := one_name_engine)
            (order := elements_order)
            (one_alarm_check "disk" "absent_name") ∅ no_environment
            [(Py.Str "disk", Py.Str "absent_name")] []
            (Py.Str "disk") (Py.Str "absent_name") {["absent_name"]}
            "absent_name" _ _ _ _ _ _)).
  - reflexivity.
  - apply elem_of_cons. left. reflexivity.
  - reflexivity.
  - reflexivity.
  - apply (bool_decide_unpack _). vm_compute. exact I.
  - reflexivity.
Defined.

(** C7: where a redirected name is a free variable of an entry the loop
    reads and [_get_check_details] returns, the dictionary filed for that
    entry has the redirect target as a key, with the target's default; no
    dictionary of the output has the original name as a key; and the
    configuration the call leaves maps the original name to the target's
    value. *)
Theorem redirected_name_documented {jinja : Jinja2} {order : SetOrder}
    (rendered_yaml : Py.value) (cfg cfg' : gmap string Py.value)
    (env : Environment) (details : details_t) (alarms cds : Py.dict)
    (key value : Py.value) (undeclared : gset string)
    (original target : string) :
  _get_check_details rendered_yaml cfg env = Py.Ok (details, cfg') ->
  check_items rendered_yaml = Py.Ok (alarms, cds) ->
  (key, value) ∈ (alarms ++ cds)%list ->
  skipped_key key = false ->
  Py.hashable key = true ->
  find_undeclared_variables env value = Py.Ok undeclared ->
  (original, target) ∈ redirect ->
  original ∈ undeclared ->
  exists v alarm,
    cfg !! target = Some v
    /\ Py.dict_get details (details_key cds key) = Some alarm
    /\ alarm !! target = Some (Default v)
    /\ no_originals details
    /\ cfg' !! original = Some v.
Proof.
  intros Hrun Hitems Hin Hskip Hhash Hfind Hred Ho.
  pose proof (get_check_details_ok _ _ _ _ _ _ _ Hitems Hrun) as Hloop.
  assert (target ≠ "_criteria") as Hcrit
      by (unfold redirect in Hred; set_solver).
  destruct (check_entries_file _ _ _ _ _ _ _ _ _ _ _ _ Hloop Hin Hskip Hhash
              Hfind (surviving_target _ _ _ Hred Ho) Hcrit)
    as (alarm & v & Hv & Hget & Halarm).
  destruct (check_entries_redirect _ _ _ _ _ _ _ _ _ _ _ _ _ Hloop Hin Hskip
              Hfind Hred Ho) as (v' & Hv' & Hcopy).
  assert (v' = v) as -> by congruence.
  exists v, alarm. repeat split; try assumption.
  eapply check_entries_no_originals; [exact Hloop|].
  intros k a o t Hnil. now apply elem_of_nil in Hnil.
Qed.

Lemma redirected_name_documented_witness :
  exists v alarm,
    ({["maas_filesystem_warning_threshold" := Py.Int 80]}
       : gmap string Py.value) !! "maas_filesystem_warning_threshold" = Some v
    /\ Py.dict_get
         [(Py.Str "disk",
           ({["maas_filesystem_warning_threshold" := Default (Py.Int 80);
              "_criteria" := Criteria []]} : gmap string DetailValue))]
         (Py.Str "disk") = Some alarm
    /\ alarm !! "maas_filesystem_warning_threshold" = Some (Default v).
Proof.
  pose proof (redirected_name_documented (jinja := one_name_engine)
                (order := elements_order)
                (one_alarm_check "disk" "warning_threshold")
                {["maas_filesystem_warning_threshold" := Py.Int 80]}
                {["warning_threshold" := Py.Int 80;
                  "maas_filesystem_warning_threshold" := Py.Int 80]}
                no_environment
                [(Py.Str "disk",
                  {["maas_filesystem_warning_threshold" := Default (Py.Int 80);
                    "_criteria" := Criteria []]})]
                [(Py.Str "disk", Py.Str "warning_threshold")] []
                (Py.Str "disk") (Py.Str "warning_threshold")
                {["warning_threshold"]}
                "warning_threshold" "maas_filesystem_warning_threshold")
    as Hdoc.
  destruct Hdoc as (v & alarm & Hv & Hget & Halarm & _).
  - vm_compute. reflexivity.
  - reflexivity.
  - apply elem_of_cons. left. reflexivity.
  - reflexivity.
  - reflexivity.
  - reflexivity.
  - apply elem_of_cons. left. reflexivity.
  - apply elem_of_singleton. reflexivity.
  - exists v, alarm. auto.
Defined.


(** ** What the search of a line finds *)

Section SearchFacts.
Import Re.

Lemma search_from_located (r : regex) (s : string) (pos : nat)
    (m : match_object) :
  search_from r s pos = Some m ->
  exists before after,
    s = before ++ group0 m ++ after
    /\ start m = (pos + String.length before)%nat
    /\ matches r (group0 m).
Proof.
  revert pos. induction s as [|c s IH]; intros pos Hs; cbn [search_from] in Hs.
  - destruct (match_here r EmptyString) as [g|] eqn:Hhere; [|discriminate].
    injection Hs as <-. cbn [group0 start].
    apply match_here_sound in Hhere as (rest & Heq & Hm).
    exists EmptyString, rest. rewrite append_nil_l. cbn. auto with lia.
  - destruct (match_here r (String c s)) as [g|] eqn:Hhere.
    + injection Hs as <-. cbn [group0 start].
      apply match_here_sound in Hhere as (rest & Heq & Hm).
      exists EmptyString, rest. rewrite append_nil_l. cbn. auto with lia.
    + apply IH in Hs as (before & after & -> & Hstart & Hm).
      exists (String c before), after. rewrite append_cons.
      cbn [String.length]. repeat split; [lia | exact Hm].
Qed.

Lemma search_from_leftmost (r : regex) (s : string) (pos : nat)
    (m : match_object) (before clause after : string) :
  search_from r s pos = Some m ->
  s = before ++ clause ++ after -> matches r clause ->
  (start m <= pos + String.length before)%nat.
Proof.
  revert pos before. induction s as [|c s IH]; intros pos before Hs Heq Hm;
    cbn [search_from] in Hs.
  - destruct (match_here r EmptyString) as [g|]; [|discriminate].
    injection Hs as <-. cbn. lia.
  - destruct (match_here r (String c s)) as [g|] eqn:Hhere.
    + injection Hs as <-. cbn. lia.
    + destruct before as [|b before].
      * rewrite append_nil_l in Heq.
        destruct (match_here_complete r clause after Hm) as [g' Hg'].
        rewrite <- Heq in Hg'. congruence.
      * rewrite append_cons in Heq. injection Heq as _ Heq.
        specialize (IH (S pos) before Hs Heq Hm). cbn [String.length]. lia.
Qed.

Lemma depth_plain_char (c : ascii) :
  existsb (Ascii.eqb c) parens = false -> paren_delta c = 0.
Proof.
  cbn. intros Hc. apply orb_false_iff in Hc as [Ho Hc].
  apply orb_false_iff in Hc as [Hc _]. unfold paren_delta.
  now rewrite Ho, Hc.
Qed.

Lemma plain_nil : plain EmptyString.
Proof.
  intros p q Heq. symmetry in Heq. apply append_eq_nil in Heq as [-> _].
  reflexivity.
Qed.

Lemma plain_depth (s : string) : plain s -> depth s = 0.
Proof. intros Hs. apply (Hs s EmptyString). now rewrite append_nil_r. Qed.

Lemma plain_append (a b : string) : plain a -> plain b -> plain (a ++ b).
Proof.
  intros Ha Hb p q Heq. symmetry in Heq.
  apply append_eq_inv in Heq as [[m [-> _]]|[m [-> ->]]].
  - now apply (Ha p m).
  - rewrite depth_append, (plain_depth a Ha). now apply (Hb m q).
Qed.

Lemma plain_run (s : string) : matches (Star (NoneOf parens)) s -> plain s.
Proof.
  intros Hm. remember (Star (NoneOf parens)) as r0 eqn:Hr0.
  induction Hm as [| | | | | r'|r' s1 s2 H1 _ H2 IH2]; try discriminate.
  - apply plain_nil.
  - assert (r' = NoneOf parens) as -> by congruence.
    apply plain_append; [|now apply IH2].
    inversion H1 as [|cs a Ha| | | | |]; subst.
    intros p q Heq. destruct p as [|x p]; [reflexivity|].
    rewrite append_cons in Heq. injection Heq as <- Heq.
    symmetry in Heq. apply append_eq_nil in Heq as [-> _].
    cbn [depth]. rewrite (depth_plain_char a Ha). reflexivity.
Qed.

Lemma flat_nil : flat EmptyString.
Proof.
  split; [reflexivity|]. intros p q Heq. symmetry in Heq.
  apply append_eq_nil in Heq as [-> _]. cbn. lia.
Qed.

Lemma flat_append (a b : string) : flat a -> flat b -> flat (a ++ b).
Proof.
  intros [Ha Hpa] [Hb Hpb]. split; [rewrite depth_append; lia|].
  intros p q Heq. symmetry in Heq.
  apply append_eq_inv in Heq as [[m [-> _]]|[m [-> ->]]].
  - now apply (Hpa p m).
  - rewrite depth_append, Ha. now apply (Hpb m q).
Qed.

Lemma flat_plain (s : string) : plain s -> flat s.
Proof.
  intros Hs. split; [now apply plain_depth|].
  intros p q Heq. rewrite (Hs p q Heq). lia.
Qed.

Lemma flat_group (s : string) :
  plain s -> flat (String "(" (s ++ String ")" EmptyString)).
Proof.
  intros Hs. split.
  - cbn [depth]. rewrite depth_append, (plain_depth s Hs). reflexivity.
  - intros p q Heq. destruct p as [|a p]; [cbn; lia|].
    rewrite append_cons in Heq. injection Heq as <- Heq. cbn [depth].
    change (paren_delta "(") with 1. symmetry in Heq.
    apply append_eq_inv in Heq as [[m [-> _]]|[m [-> Hm]]].
    + rewrite (Hs p m eq_refl). lia.
    + rewrite depth_append, (plain_depth s Hs).
      destruct m as [|c m]; [cbn; lia|].
      rewrite append_cons in Hm. injection Hm as <- Hm.
      symmetry in Hm. apply append_eq_nil in Hm as [-> _]. cbn. lia.
Qed.

Lemma flat_star (r : regex) (s : string) :
  (forall t, matches r t -> flat t) -> matches (Star r) s -> flat s.
Proof.
  intros Hr Hm. remember (Star r) as r0 eqn:Hr0.
  induction Hm as [| | | | | r'|r' s1 s2 H1 _ H2 IH2]; try discriminate.
  - apply flat_nil.
  - assert (r' = r) as -> by congruence.
    apply flat_append; [now apply Hr | now apply IH2].
Qed.

(** What is between the parentheses of a clause is flat. *)
Lemma clause_content_flat (g : string) :
  matches CRITERIA g ->
  exists inner, g = String "(" (inner ++ String ")" EmptyString) /\ flat inner.
Proof.
  unfold CRITERIA. intros Hm.
  inversion Hm as [| |r1 r2 a b Ha Hb| | | |]; subst.
  inversion Ha; subst.
  inversion Hb as [| |r1 r2 inner c Hinner Hc| | | |]; subst.
  inversion Hc; subst.
  exists inner. split; [reflexivity|].
  revert Hinner. apply flat_star. intros t Ht.
  inversion Ht as [| | |r1 r2 s Hl|r1 r2 s Hr| |]; subst.
  - now apply flat_plain, plain_run.
  - inversion Hr as [| |r1 r2 a' b' Ha' Hb'| | | |]; subst.
    inversion Ha'; subst.
    inversion Hb' as [| |r1 r2 n c' Hn Hc'| | | |]; subst.
    inversion Hc'; subst.
    rewrite append_cons, append_nil_l. now apply flat_group, plain_run.
Qed.

Lemma contains_true_append (a b : string) (c : ascii) :
  PyStr.contains (a ++ String c b) c = true.
Proof.
  rewrite contains_append. cbn [PyStr.contains]. rewrite Ascii.eqb_refl.
  apply orb_true_r.
Qed.

Lemma search_needs_parentheses (line : string) (m : match_object) :
  search CRITERIA line = Some m ->
  PyStr.contains line "(" = true /\ PyStr.contains line ")" = true.
Proof.
  intros Hs. apply search_from_located in Hs as (before & after & -> & _ & Hm).
  apply clause_shape in Hm as (inner & -> & _). split.
  - rewrite append_cons. apply contains_true_append.
  - rewrite contains_append.
    replace (String "(" (inner ++ String ")" EmptyString) ++ after)
      with (String "(" inner ++ String ")" after)
      by (rewrite !append_cons, append_assoc; reflexivity).
    now rewrite contains_true_append, orb_true_r.
Qed.

Lemma criteria_lines_drop (pending : option string)
    (above below : list string) (line : string) :
  (forall p, criteria_line p line = (None, p)) ->
  criteria_lines pending (above ++ line :: below)
  = criteria_lines pending (above ++ below).
Proof.
  intros Hline. revert pending.
  induction above as [|l above IH]; intros pending; cbn [app criteria_lines].
  - now rewrite Hline.
  - destruct (criteria_line pending l) as [[rec|] p]; now rewrite IH.
Qed.

End SearchFacts.

(** X1: the clause the parser reads off a line is a word of [CRITERIA]
    that stands in the line at the offset the match reports, and no word
    of [CRITERIA] stands in the line at a smaller offset. *)
Theorem search_finds_leftmost_clause (line : string) (m : Re.match_object)
    (before' clause' after' : string) :
  Re.search CRITERIA line = Some m ->
  line = before' ++ clause' ++ after' ->
  Re.matches CRITERIA clause' ->
  (exists before after,
     line = before ++ Re.group0 m ++ after
     /\ String.length before = Re.start m
     /\ Re.matches CRITERIA (Re.group0 m))
  /\ (Re.start m <= String.length before')%nat.
Proof.
  intros Hs Heq Hm. split.
  - destruct (search_from_located _ _ _ _ Hs) as (before & after & H1 & H2 & H3).
    exists before, after. auto.
  - exact (search_from_leftmost _ _ _ _ _ _ _ Hs Heq Hm).
Qed.

Lemma search_finds_leftmost_clause_witness :
  (Re.start {| Re.start := 3; Re.group0 := "(x > 1)" |} <= 14)%nat.
Proof.
  refine (proj2 (search_finds_leftmost_clause "if (x > 1) or (y)"
            {| Re.start := 3; Re.group0 := "(x > 1)" |}
            "if (x > 1) or " "(y)" EmptyString _ _ _)).
  - vm_compute. reflexivity.
  - reflexivity.
  - change "(y)" with (String "(" EmptyString ++ "y" ++ String ")" EmptyString).
    unfold CRITERIA. apply Re.MCat; [constructor|].
    apply Re.MCat; [|constructor].
    rewrite <- (append_nil_r "y"). apply Re.MStarApp; [|constructor].
    apply Re.MAltL. rewrite <- (append_nil_r "y").
    apply Re.MStarApp; [|constructor]. now constructor.
Defined.

(** X2: the content of a clause, the text the parser takes between the
    outer parentheses of the match, has balanced parentheses nested one
    level at most: a group nested deeper is never part of a clause. *)
Theorem clause_content_is_flat (line : string) (m : Re.match_object) :
  Re.search CRITERIA line = Some m ->
  let content := PyStr.slice (Re.group0 m) (Some 1) (Some (-1)) in
  Re.group0 m = String "(" (content ++ String ")" EmptyString)
  /\ flat content.
Proof.
  intros Hs content.
  apply search_from_located in Hs as (before & after & _ & _ & Hm).
  apply clause_content_flat in Hm as (inner & Hg & Hflat).
  assert (content = inner) as ->.
  { unfold content. rewrite Hg, slice_inner. cbn [remove_first].
    apply remove_last_snoc. }
  auto.
Qed.

Lemma clause_content_is_flat_witness :
  flat "a(b)c".
Proof.
  apply (clause_content_is_flat "((a(b)c))"
           {| Re.start := 1; Re.group0 := "(a(b)c)" |}).
  vm_compute. reflexivity.
Defined.

(** X3: a line without an opening or without a closing parenthesis has
    no clause: it yields no record, leaves the pending condition as it
    is, and can be taken out of a criteria text without changing the
    records. *)
Theorem line_without_parentheses_ignored (pending : option string)
    (above line below : string) :
  PyStr.contains line "(" = false \/ PyStr.contains line ")" = false ->
  PyStr.contains line "010" = false ->
  criteria_line pending line = (None, pending)
  /\ _get_criteria (above ++ String "010" (line ++ String "010" below))
     = _get_criteria (above ++ String "010" below).
Proof.
  intros Hnone Hnl.
  assert (forall p, criteria_line p line = (None, p)) as Hline.
  { intros p. unfold criteria_line.
    destruct (Re.search CRITERIA line) as [m|] eqn:Hs; [|reflexivity].
    apply search_needs_parentheses in Hs as [Ho Hc].
    destruct Hnone; congruence. }
  split; [apply Hline|].
  unfold _get_criteria. rewrite split_three by exact Hnl.
  rewrite split_append. now apply criteria_lines_drop.
Qed.

Lemma line_without_parentheses_ignored_witness :
  _get_criteria ("(x > 1)" ++ String "010"
                   ("return new AlarmStatus" ++ String "010" "(OK, 'fine')"))
  = _get_criteria ("(x > 1)" ++ String "010" "(OK, 'fine')").
Proof.
  refine (proj2 (line_without_parentheses_ignored None "(x > 1)"
            "return new AlarmStatus" "(OK, 'fine')" _ _)).
  - left. vm_compute. reflexivity.
  - vm_compute. reflexivity.
Defined.

(** ** What the loader constructs *)

Section LoaderFacts.
Import Py Yaml.

Lemma dict_mem_set {A : Type} (d : list (Py.value * A)) (k k' : Py.value)
    (v : A) :
  dict_mem (dict_set d k v) k' = key_eqb k k' || dict_mem d k'.
Proof.
  unfold dict_mem. rewrite dict_get_set.
  now destruct (key_eqb k k'), (dict_get d k').
Qed.

Lemma distinct_keys_set {A : Type} (d : list (Py.value * A)) (k : Py.value)
    (v : A) :
  hashable k = true -> distinct_keys d = true ->
  distinct_keys (dict_set d k v) = true.
Proof.
  intros Hk. induction d as [|[k0 v0] d IH]; cbn [dict_set distinct_keys].
  - intros _. now rewrite Hk.
  - intros Hd. apply andb_true_iff in Hd as [Hd Hrest].
    apply andb_true_iff in Hd as [Hk0 Hfresh].
    destruct (key_eqb k0 k) eqn:Heq; cbn [distinct_keys].
    + now rewrite Hk0, Hfresh, Hrest.
    + rewrite Hk0, dict_mem_set, (key_eqb_sym k k0), Heq, (IH Hrest).
      cbn [orb]. now rewrite Hfresh.
Qed.

Lemma values_set (d : dict) (k v : Py.value) :
  well_formed v = true ->
  forallb (fun kv => well_formed (snd kv)) d = true ->
  forallb (fun kv => well_formed (snd kv)) (dict_set d k v) = true.
Proof.
  intros Hv. induction d as [|[k0 v0] d IH]; cbn [dict_set forallb snd].
  - intros _. now rewrite Hv.
  - intros Hd. apply andb_true_iff in Hd as [H0 Hrest].
    destruct (key_eqb k0 k); cbn [forallb snd].
    + now rewrite Hv, Hrest.
    + now rewrite H0, (IH Hrest).
Qed.

Lemma recover_key_hashable (key_node : Node) (key : Py.value) :
  recover_key key_node = Ok key -> hashable key = true.
Proof.
  destruct key_node as [t v|t [|i items]|t [|[first fv] pairs]]; cbn;
    try discriminate.
  - destruct v; discriminate.
  - intros [= <-]. reflexivity.
Qed.

Lemma construct_scalar_well_formed (tag text : string) (v : Py.value) :
  construct_scalar_node tag text = Ok v -> well_formed v = true.
Proof.
  unfold construct_scalar_node, construct_yaml_int.
  repeat match goal with
         | |- context [if ?b then _ else _] => destruct b
         | |- context [match ?x with _ => _ end] => destruct x
         end; intros [= <-]; reflexivity.
Qed.

Section Pairs.
Variable bound : nat.
Hypothesis smaller :
  forall node v, (node_size node < bound)%nat ->
                 construct_object node = Ok v -> well_formed v = true.

Lemma construct_pairs_well_formed (pairs : list (Node * Node))
    (mapping result : dict) :
  (list_sum (map (fun kv => node_size (fst kv) + node_size (snd kv))%nat pairs)
   < bound)%nat ->
  well_formed (Dict mapping) = true ->
  construct_pairs construct_object pairs mapping = Ok result ->
  well_formed (Dict result) = true.
Proof.
  revert mapping. induction pairs as [|[kn vn] pairs IH];
    intros mapping Hsize Hwf Hrun; cbn [construct_pairs] in Hrun.
  - now injection Hrun as <-.
  - cbn [map fst snd] in Hsize. unfold list_sum in *.
    cbn [foldr fold_right] in Hsize.
    destruct (construct_object kn) as [key|] eqn:Hkey; [|discriminate].
    cbn [mbind result_bind] in Hrun.
    assert (exists key', (if hashable key then Ok key else recover_key kn)
                         = Ok key' /\ hashable key' = true) as (key' & Hk & Hh).
    { destruct (hashable key) eqn:Hh; [eauto|].
      destruct (recover_key kn) as [key'|] eqn:Hrec; [|discriminate].
      exists key'. split; [reflexivity|].
      now apply recover_key_hashable in Hrec. }
    rewrite Hk in Hrun. cbn [mbind result_bind] in Hrun.
    destruct (construct_object vn) as [value|] eqn:Hvalue; [|discriminate].
    cbn [mbind result_bind] in Hrun.
    apply (IH (dict_set mapping key' value)); [lia | | exact Hrun].
    cbn [well_formed] in *. apply andb_true_iff in Hwf as [Hd Hv].
    rewrite (distinct_keys_set _ _ _ Hh Hd). cbn [andb].
    apply values_set; [|exact Hv].
    apply (smaller vn); [lia | exact Hvalue].
Qed.

Lemma construct_items_well_formed (items : list Node) (result : list Py.value) :
  (list_sum (map node_size items) < bound)%nat ->
  construct_items construct_object items = Ok result ->
  forallb well_formed result = true.
Proof.
  revert result. induction items as [|item items IH]; intros result Hsize Hrun;
    cbn [construct_items] in Hrun.
  - now injection Hrun as <-.
  - cbn [map] in Hsize. unfold list_sum in *.
    cbn [foldr fold_right] in Hsize.
    destruct (construct_object item) as [x|] eqn:Hx; [|discriminate].
    cbn [mbind result_bind] in Hrun.
    destruct (construct_items construct_object items) as [xs|] eqn:Hxs;
      [|discriminate].
    cbn [mbind result_bind] in Hrun. injection Hrun as <-.
    cbn [forallb]. rewrite (smaller item x) by (lia || assumption).
    apply IH; [lia | reflexivity].
Qed.
End Pairs.

Lemma construct_object_well_formed (node : Node) (v : Py.value) :
  construct_object node = Ok v -> well_formed v = true.
Proof.
  remember (node_size node) as n eqn:Hn. revert node v Hn.
  induction n as [n IH] using lt_wf_ind. intros node v -> Hrun.
  assert (forall node' v', (node_size node' < node_size node)%nat ->
            construct_object node' = Ok v' -> well_formed v' = true) as Hsmall
      by (intros node' v' Hlt; now apply (IH _ Hlt node')).
  destruct node as [tag text|tag items|tag pairs]; cbn [construct_object] in Hrun.
  - now apply construct_scalar_well_formed in Hrun.
  - destruct (String.eqb tag seq_tag).
    + destruct (construct_items construct_object items) as [xs|] eqn:Hxs;
        [|discriminate].
      injection Hrun as <-. cbn [well_formed].
      eapply construct_items_well_formed; [exact Hsmall | | exact Hxs].
      cbn [node_size]. lia.
    + destruct (String.eqb tag map_tag); [discriminate|].
      destruct (_ || _); discriminate.
  - destruct (String.eqb tag map_tag).
    + destruct (construct_pairs construct_object pairs []) as [d|] eqn:Hd;
        [|discriminate].
      injection Hrun as <-.
      eapply construct_pairs_well_formed; [exact Hsmall | | | exact Hd];
        [cbn [node_size]; lia | reflexivity].
    + destruct (_ || _); discriminate.
Qed.

Lemma construct_pairs_app (pairs pairs' : list (Node * Node)) (mapping : dict) :
  construct_pairs construct_object (pairs ++ pairs') mapping
  = middle ← construct_pairs construct_object pairs mapping;
    construct_pairs construct_object pairs' middle.
Proof.
  revert mapping. induction pairs as [|[kn vn] pairs IH]; intros mapping;
    [reflexivity|].
  cbn [app construct_pairs].
  destruct (construct_object kn) as [key|]; [|reflexivity].
  cbn [mbind result_bind].
  destruct (if hashable key then Ok key else recover_key kn) as [key'|];
    [|reflexivity].
  cbn [mbind result_bind].
  destruct (construct_object vn) as [value|]; [|reflexivity].
  cbn [mbind result_bind]. apply IH.
Qed.

Lemma sequence_node_unhashable (tag : string) (items : list Node)
    (key : Py.value) :
  construct_object (SequenceNode tag items) = Ok key -> hashable key = false.
Proof.
  cbn [construct_object]. destruct (String.eqb tag seq_tag).
  - destruct (construct_items construct_object items); cbn;
      [intros [= <-]; reflexivity | discriminate].
  - destruct (String.eqb tag map_tag); [discriminate|].
    destruct (_ || _); discriminate.
Qed.

End LoaderFacts.

(** X4: whatever document the loader constructs, every dictionary in it
    has hashable, pairwise different keys: an unhashable key is replaced
    or the load raises, it is never stored. *)
Theorem loaded_document_well_formed (root : option Yaml.Node)
    (document : Py.value) :
  Yaml.construct_document root = Py.Ok document ->
  well_formed document = true.
Proof.
  destruct root as [node|]; cbn [Yaml.construct_document].
  - apply construct_object_well_formed.
  - intros [= <-]. reflexivity.
Qed.

Lemma loaded_document_well_formed_witness :
  well_formed
    (Py.Dict [(Py.Str "port",
               Py.Dict [(Py.Str (PyStr.quoted "{{ private_ssh_port }}"),
                         Py.None_)])]) = true.
Proof.
  apply (loaded_document_well_formed
           (Some (Yaml.MappingNode Yaml.map_tag
                    [(Yaml.ScalarNode Yaml.str_tag "port",
                      Yaml.flow_expression "private_ssh_port")]))).
  vm_compute. reflexivity.
Defined.



(** X6: a key that occurs again later in a mapping keeps its place and
    takes the later value: after the last pair of a mapping is
    constructed, looking its key up gives its value. *)
Theorem last_pair_wins (pairs : list (Yaml.Node * Yaml.Node))
    (key_node value_node : Yaml.Node) (key value : Py.value)
    (mapping result : Py.dict) :
  Yaml.construct_object key_node = Py.Ok key ->
  Py.hashable key = true ->
  Yaml.construct_object value_node = Py.Ok value ->
  Yaml.construct_pairs Yaml.construct_object
    (pairs ++ [(key_node, value_node)]) mapping = Py.Ok result ->
  Py.dict_get result key = Some value.
Proof.
  intros Hkey Hhash Hvalue. rewrite construct_pairs_app.
  destruct (Yaml.construct_pairs Yaml.construct_object pairs mapping)
    as [middle|]; [|discriminate].
  cbn [mbind Py.result_bind Yaml.construct_pairs].
  rewrite Hkey. cbn [mbind Py.result_bind]. rewrite Hhash, Hvalue.
  cbn [mbind Py.result_bind]. intros [= <-].
  now rewrite dict_get_set, key_eqb_refl.
Qed.

Lemma last_pair_wins_witness :
  Py.dict_get [(Py.Str "a", Py.Int 2); (Py.Str "b", Py.Int 0)] (Py.Str "a")
  = Some (Py.Int 2).
Proof.
  apply (last_pair_wins
           [(Yaml.ScalarNode Yaml.str_tag "a", Yaml.ScalarNode Yaml.int_tag "1");
            (Yaml.ScalarNode Yaml.str_tag "b", Yaml.ScalarNode Yaml.int_tag "0")]
           (Yaml.ScalarNode Yaml.str_tag "a") (Yaml.ScalarNode Yaml.int_tag "2")
           (Py.Str "a") (Py.Int 2) []);
    reflexivity.
Defined.

(** ** What the resolver files and what it leaves alone *)

Section ResolverFacts.
Context {jinja : Jinja2} {order : SetOrder}.
Import Py.

Lemma check_entries_invariant
    (P : details_t * gmap string Py.value -> Prop)
    (env : Environment) (alarms cds entries : Py.dict) :
  (forall state state' entry,
     entry ∈ entries -> P state ->
     check_entry env alarms cds state entry = Ok state' -> P state') ->
  forall state state',
    P state -> check_entries env alarms cds entries state = Ok state' ->
    P state'.
Proof.
  induction entries as [|entry entries IH]; intros Hstep state state' HP Hrun.
  - now injection Hrun as <-.
  - apply check_entries_cons in Hrun as (middle & Hentry & Hrest).
    apply (IH (fun s s' e He => Hstep s s' e
                 (proj2 (elem_of_cons _ _ _) (or_intror He)))
              middle state'); [|exact Hrest].
    apply (Hstep state middle entry); [|exact HP | exact Hentry].
    apply elem_of_cons. now left.
Qed.

Lemma check_entries_app (env : Environment) (alarms cds : Py.dict)
    (first rest : Py.dict) (state state' : details_t * gmap string Py.value) :
  check_entries env alarms cds (first ++ rest)%list state = Ok state' ->
  exists middle,
    check_entries env alarms cds first state = Ok middle
    /\ check_entries env alarms cds rest middle = Ok state'.
Proof.
  revert state. induction first as [|entry first IH]; intros state Hrun.
  - exists state. auto.
  - cbn [app] in Hrun.
    apply check_entries_cons in Hrun as (s1 & Hentry & Hrest).
    destruct (IH _ Hrest) as (middle & Hfirst & Hlast).
    exists middle. split; [|exact Hlast].
    cbn [check_entries]. now rewrite Hentry.
Qed.

Lemma check_entries_frame (env : Environment) (alarms cds entries : Py.dict)
    (details details' : details_t) (cfg cfg' : gmap string Py.value) :
  check_entries env alarms cds entries (details, cfg) = Ok (details', cfg') ->
  agree cfg cfg'.
Proof.
  intros Hrun.
  apply (check_entries_invariant (fun s => agree cfg (snd s))
           env alarms cds entries) with (state := (details, cfg))
                                        (state' := (details', cfg'));
    [|apply agree_refl | exact Hrun].
  intros [d c] [d' c'] entry _ Hagree Hstep. cbn [snd] in *.
  eapply agree_trans; [exact Hagree|]. eapply check_entry_agree; eassumption.
Qed.

Lemma surviving_not_ignored (undeclared : gset string) (name : string) :
  name ∈ surviving undeclared -> name ∉ ignore.
Proof.
  unfold surviving. intros Hin Hignored.
  apply redirected_spec in Hin as [(Hin & _)|[[-> _]|[-> _]]].
  - now apply remove_ignored_spec in Hin as [_ Hin].
  - unfold ignore in Hignored. set_solver.
  - unfold ignore in Hignored. set_solver.
Qed.

Lemma dict_set_keys {A : Type} (d : list (Py.value * A)) (k k0 : Py.value)
    (v x : A) :
  (k0, x) ∈ dict_set d k v -> k0 = k \/ exists x0, (k0, x0) ∈ d.
Proof.
  induction d as [|[k1 v1] d IH]; cbn [dict_set]; intros Hin.
  - apply list_elem_of_singleton in Hin as [= -> ->]. now left.
  - destruct (key_eqb k1 k).
    + apply elem_of_cons in Hin as [[= -> ->]|Hin]; right.
      * exists v1. apply elem_of_cons. now left.
      * exists x. apply elem_of_cons. now right.
    + apply elem_of_cons in Hin as [[= -> ->]|Hin].
      * right. exists v1. apply elem_of_cons. now left.
      * destruct (IH Hin) as [->|[x0 Hx0]]; [now left|].
        right. exists x0. apply elem_of_cons. now right.
Qed.

Lemma dict_mem_elem {A : Type} (d : list (Py.value * A)) (k : Py.value)
    (x : A) :
  (k, x) ∈ d -> hashable k = true -> dict_mem d k = true.
Proof.
  unfold dict_mem. intros Hin Hk. induction d as [|[k1 v1] d IH].
  - now apply elem_of_nil in Hin.
  - cbn [dict_get]. apply elem_of_cons in Hin as [[= <- <-]|Hin].
    + now rewrite key_eqb_refl.
    + destruct (key_eqb k1 k); [reflexivity | now apply IH].
Qed.

Lemma distinct_keys_hashable {A : Type} (d : list (Py.value * A))
    (k : Py.value) (x : A) :
  distinct_keys d = true -> (k, x) ∈ d -> hashable k = true.
Proof.
  induction d as [|[k1 v1] d IH]; intros Hd Hin.
  - now apply elem_of_nil in Hin.
  - cbn [distinct_keys] in Hd. apply andb_true_iff in Hd as [Hd Hrest].
    apply andb_true_iff in Hd as [Hk1 _].
    apply elem_of_cons in Hin as [[= -> ->]|Hin]; [exact Hk1 | now apply IH].
Qed.

Lemma dict_mem_remove {A : Type} (d : list (Py.value * A)) (k k' : Py.value) :
  dict_mem (dict_remove d k) k' = true -> dict_mem d k' = true.
Proof.
  unfold dict_mem. induction d as [|[k1 v1] d IH]; cbn [dict_remove dict_get];
    [easy|].
  destruct (key_eqb k1 k); cbn [dict_get].
  - intros Hm. destruct (key_eqb k1 k'); [reflexivity | exact Hm].
  - destruct (key_eqb k1 k'); [reflexivity | exact IH].
Qed.

Lemma distinct_keys_remove {A : Type} (d : list (Py.value * A)) (k : Py.value) :
  distinct_keys d = true -> distinct_keys (dict_remove d k) = true.
Proof.
  induction d as [|[k1 v1] d IH]; [easy|].
  cbn [distinct_keys dict_remove]. intros Hd.
  apply andb_true_iff in Hd as [Hd Hrest].
  apply andb_true_iff in Hd as [Hk1 Hfresh].
  destruct (key_eqb k1 k); [exact Hrest|].
  cbn [distinct_keys]. rewrite Hk1, (IH Hrest), andb_true_r. cbn [andb].
  destruct (dict_mem (dict_remove d k) k1) eqn:Hm; [|reflexivity].
  apply dict_mem_remove in Hm. now rewrite Hm in Hfresh.
Qed.

Lemma alarm_criteria_distinct (items alarms result : Py.dict) :
  distinct_keys items = true -> distinct_keys alarms = true ->
  alarm_criteria items alarms = Ok result -> distinct_keys result = true.
Proof.
  revert alarms. induction items as [|[k body] items IH];
    intros alarms Hitems Halarms Hrun; cbn [alarm_criteria] in Hrun.
  - now injection Hrun as <-.
  - cbn [distinct_keys] in Hitems. apply andb_true_iff in Hitems as [Hk Hrest].
    apply andb_true_iff in Hk as [Hk _].
    destruct (getitem body "criteria") as [criteria|]; [|discriminate].
    cbn [mbind result_bind] in Hrun.
    apply (IH _ Hrest (distinct_keys_set _ _ _ Hk Halarms) Hrun).
Qed.

Lemma well_formed_get (d : Py.dict) (k v : Py.value) :
  well_formed (Dict d) = true -> dict_get d k = Some v -> well_formed v = true.
Proof.
  cbn [well_formed]. intros Hwf. apply andb_true_iff in Hwf as [_ Hvalues].
  induction d as [|[k1 v1] d IH]; cbn [dict_get]; [discriminate|].
  cbn [forallb snd] in Hvalues. apply andb_true_iff in Hvalues as [H1 Hrest].
  destruct (key_eqb k1 k); [now intros [= <-] | now apply IH].
Qed.

Lemma or_empty_distinct (v : Py.value) (d : Py.dict) :
  well_formed v = true ->
  (if truthy v then v else Dict []) = Dict d -> distinct_keys d = true.
Proof.
  intros Hwf. destruct (truthy v).
  - intros ->. cbn [well_formed] in Hwf.
    now apply andb_true_iff in Hwf as [Hd _].
  - now intros [= <-].
Qed.

(** The two dictionaries the loop runs over have hashable, pairwise
    different keys when the rendered document is one Python can hold. *)
Lemma check_items_distinct (rendered_yaml : Py.value) (alarms cds : Py.dict) :
  well_formed rendered_yaml = true ->
  check_items rendered_yaml = Ok (alarms, cds) ->
  distinct_keys alarms = true /\ distinct_keys cds = true.
Proof.
  intros Hwf. unfold check_items, get.
  destruct rendered_yaml as [| | | | |top]; try discriminate.
  cbn [mbind result_bind].
  assert (forall k, well_formed
            (match dict_get top k with Some x => x | None => None_ end) = true)
    as Hget.
  { intros k. destruct (dict_get top k) eqn:Hk; [|reflexivity].
    eapply well_formed_get; eassumption. }
  pose proof (fun d => or_empty_distinct _ d (Hget (Str "alarms"))) as Ha.
  pose proof (fun d => or_empty_distinct _ d (Hget (Str "details"))) as Hd.
  destruct (if truthy _ then _ else Dict []) as [| | | | |entries];
    try discriminate.
  cbn [Py.items mbind result_bind].
  destruct (alarm_criteria entries []) as [alarms'|] eqn:Halarms;
    [|discriminate].
  cbn [mbind result_bind].
  destruct (if truthy _ then _ else Dict []) as [| | | |l|details];
    cbn [pop_args]; try discriminate.
  - destruct (existsb _ l); discriminate.
  - cbn [mbind result_bind]. intros [= <- <-]. split.
    + exact (alarm_criteria_distinct entries [] _ (Ha _ eq_refl) eq_refl
               Halarms).
    + apply distinct_keys_remove. now apply Hd.
Qed.

End ResolverFacts.

Section ResolverInvariants.
Context {jinja : Jinja2} {order : SetOrder}.
Import Py.

Lemma get_check_details_inv (rendered_yaml : Py.value)
    (cfg cfg' : gmap string Py.value) (env : Environment)
    (details : details_t) :
  _get_check_details rendered_yaml cfg env = Ok (details, cfg') ->
  exists alarms cds,
    check_items rendered_yaml = Ok (alarms, cds)
    /\ check_entries env alarms cds (alarms ++ cds)%list ([], cfg)
       = Ok (details, cfg').
Proof.
  unfold _get_check_details.
  destruct (check_items rendered_yaml) as [[alarms cds]|]; [|discriminate].
  intros Hrun. exists alarms, cds. auto.
Qed.

Lemma stored_default (criteria : option (list CriteriaRecord))
    (current : gmap string DetailValue) (name : string) (v : Py.value) :
  stored criteria current !! name = Some (Default v) ->
  current !! name = Some (Default v).
Proof.
  destruct criteria as [records|]; cbn [stored]; [|easy].
  destruct (decide (name = "_criteria")) as [->|Hne].
  - rewrite lookup_insert_eq. discriminate.
  - now rewrite lookup_insert_ne.
Qed.

Lemma stored_none (criteria : option (list CriteriaRecord))
    (current : gmap string DetailValue) (name : string) :
  name ≠ "_criteria" -> current !! name = None ->
  stored criteria current !! name = None.
Proof.
  intros Hne Hnone. destruct criteria as [records|]; cbn [stored]; [|easy].
  now rewrite lookup_insert_ne.
Qed.

Lemma key_eqb_str (k : Py.value) (s : string) :
  key_eqb k (Str s) = true -> k = Str s.
Proof.
  destruct k; cbn; try discriminate. intros Heq.
  now apply String.eqb_eq in Heq as ->.
Qed.

Lemma iterate_empty : iterate (∅ : gset string) = [].
Proof.
  apply Permutation_nil. symmetry. rewrite (iterate_perm ∅).
  now rewrite elements_empty.
Qed.

(** What one turn of the loop does when it returns, case by case. *)
Lemma check_entry_cases (env : Environment) (alarms cds : Py.dict)
    (details details' : details_t) (cfg cfg' : gmap string Py.value)
    (key value : Py.value) :
  check_entry env alarms cds (details, cfg) (key, value)
  = Ok (details', cfg') ->
  skipped_key key = false ->
  exists undeclared defaults,
    find_undeclared_variables env value = Ok undeclared
    /\ agree cfg cfg'
    /\ collect_defaults (iterate (surviving undeclared)) cfg' ∅ = Ok defaults
    /\ if dict_mem cds key && bool_decide (defaults = ∅)
       then details' = details
       else let current :=
              defaults ∪ default ∅ (dict_get details (details_key cds key)) in
            if dict_mem alarms (details_key cds key)
            then exists rendered,
                   render_source value cfg' = Ok rendered
                   /\ details'
                      = dict_set details (details_key cds key)
                          (<["_criteria" := Criteria (_get_criteria rendered)]>
                             current)
            else details' = dict_set details (details_key cds key) current.
Proof.
  unfold check_entry. fold (skipped_key key). fold (details_key cds key).
  intros Hrun Hskip. rewrite Hskip in Hrun.
  destruct (resolve_names env value cfg) as [[names cfg1]|] eqn:Hnames;
    [|discriminate].
  apply resolve_names_ok in Hnames as (undeclared & Hfind & -> & Hred).
  cbn [mbind result_bind] in Hrun.
  destruct (collect_defaults _ cfg1 ∅) as [defaults|] eqn:Hdefaults;
    [|discriminate].
  cbn [mbind result_bind] in Hrun.
  assert (match dict_get details (details_key cds key) with
          | Some present => defaults ∪ present
          | None => defaults
          end
          = defaults ∪ default ∅ (dict_get details (details_key cds key)))
    as Hcurrent.
  { destruct (dict_get details _); cbn; [reflexivity|].
    now rewrite (right_id_L ∅ (∪)). }
  rewrite Hcurrent in Hrun. clear Hcurrent.
  apply apply_redirect_config in Hred as [Hsame _].
  destruct (dict_mem cds key && bool_decide (defaults = ∅)) eqn:Hdrop.
  - injection Hrun as <- <-. exists undeclared, defaults.
    rewrite Hdrop. auto.
  - destruct (dict_mem alarms (details_key cds key)) eqn:Halarm.
    + destruct (render_source value cfg1) as [rendered|] eqn:Hrender;
        [|discriminate].
      cbn [mbind result_bind] in Hrun. injection Hrun as <- <-.
      exists undeclared, defaults. rewrite Hdrop.
      repeat split; auto. exists rendered. auto.
    + injection Hrun as <- <-. exists undeclared, defaults.
      rewrite Hdrop. auto.
Qed.

Lemma check_entry_untouched (env : Environment) (alarms cds : Py.dict)
    (details details' : details_t) (cfg cfg' : gmap string Py.value)
    (key value k : Py.value) :
  check_entry env alarms cds (details, cfg) (key, value)
  = Ok (details', cfg') ->
  key_eqb (details_key cds key) k = false ->
  dict_get details' k = dict_get details k.
Proof.
  intros Hrun Hk.
  apply check_entry_inv in Hrun
    as [(_ & -> & _)|(_ & U & defaults & _ & _ & _ & Hout)]; [reflexivity|].
  destruct Hout as [(_ & _ & ->)|[criteria ->]]; [reflexivity|].
  now rewrite dict_get_set, Hk.
Qed.

Lemma check_entries_untouched (env : Environment) (alarms cds : Py.dict)
    (entries : Py.dict) (details details' : details_t)
    (cfg cfg' : gmap string Py.value) (k : Py.value) :
  (forall key value, (key, value) ∈ entries ->
     key_eqb (details_key cds key) k = false) ->
  check_entries env alarms cds entries (details, cfg) = Ok (details', cfg') ->
  dict_get details' k = dict_get details k.
Proof.
  intros Hkeys Hrun.
  apply (check_entries_invariant
           (fun s => dict_get (fst s) k = dict_get details k)
           env alarms cds entries) with (state := (details, cfg))
                                        (state' := (details', cfg'));
    [|reflexivity | exact Hrun].
  intros [d c] [d' c'] [key value] Hin HP Hstep. cbn [fst] in *.
  rewrite <- HP. eapply check_entry_untouched; [exact Hstep|].
  now apply (Hkeys key value).
Qed.

End ResolverInvariants.

Section ResolverSteps.
Context {jinja : Jinja2} {order : SetOrder}.
Import Py.

Lemma check_entry_no_ignored (env : Environment) (alarms cds : Py.dict)
    (details details' : details_t) (cfg cfg' : gmap string Py.value)
    (entry : Py.value * Py.value) :
  (forall k alarm name,
     (k, alarm) ∈ details -> name ∈ ignore -> alarm !! name = None) ->
  check_entry env alarms cds (details, cfg) entry = Ok (details', cfg') ->
  forall k alarm name,
    (k, alarm) ∈ details' -> name ∈ ignore -> alarm !! name = None.
Proof.
  destruct entry as [key value]. intros Hinv Hrun.
  apply check_entry_inv in Hrun
    as [(_ & -> & _)|(_ & U & defaults & _ & _ & Hdef & Hout)];
    [exact Hinv|].
  destruct Hout as [(_ & _ & ->)|[criteria ->]]; [exact Hinv|].
  intros k alarm name Hin Hname.
  apply dict_set_elem in Hin as [->|Hin]; [|exact (Hinv _ _ _ Hin Hname)].
  apply stored_none; [unfold ignore in Hname; set_solver|].
  apply lookup_union_None. split.
  - rewrite (defaults_lookup _ _ _ name Hdef).
    rewrite decide_False; [reflexivity|].
    intros Hs. now apply surviving_not_ignored in Hs.
  - destruct (dict_get details (details_key cds key)) as [present|] eqn:Hget;
      cbn; [|apply lookup_empty].
    apply dict_get_elem in Hget as [k0 Hk0]. exact (Hinv _ _ _ Hk0 Hname).
Qed.

Lemma check_entry_sound (env : Environment) (alarms cds : Py.dict)
    (details details' : details_t) (cfg0 cfg cfg' : gmap string Py.value)
    (entry : Py.value * Py.value) :
  agree cfg0 cfg ->
  (forall k alarm name v,
     (k, alarm) ∈ details -> alarm !! name = Some (Default v) ->
     cfg0 !! name = Some v) ->
  check_entry env alarms cds (details, cfg) entry = Ok (details', cfg') ->
  forall k alarm name v,
    (k, alarm) ∈ details' -> alarm !! name = Some (Default v) ->
    cfg0 !! name = Some v.
Proof.
  destruct entry as [key value]. intros Hagree Hinv Hrun.
  apply check_entry_inv in Hrun
    as [(_ & -> & _)|(_ & U & defaults & _ & Hred & Hdef & Hout)];
    [exact Hinv|].
  destruct Hout as [(_ & _ & ->)|[criteria ->]]; [exact Hinv|].
  intros k alarm name v Hin Hname.
  apply dict_set_elem in Hin as [->|Hin]; [|exact (Hinv _ _ _ _ Hin Hname)].
  apply stored_default in Hname.
  apply lookup_union_Some_raw in Hname as [Hd|[_ Hp]].
  - rewrite (defaults_lookup _ _ _ name Hdef) in Hd.
    destruct (decide (name ∈ surviving U)) as [Hs|]; [|discriminate].
    destruct (surviving_plain _ _ Hs) as [Hw Hc].
    apply apply_redirect_config in Hred as [Hsame _].
    rewrite (Hsame name Hw Hc), (Hagree name Hw Hc) in Hd.
    destruct (cfg0 !! name); cbn in Hd; congruence.
  - destruct (dict_get details (details_key cds key)) as [present|] eqn:Hget;
      cbn in Hp; [|now rewrite lookup_empty in Hp].
    apply dict_get_elem in Hget as [k0 Hk0]. exact (Hinv _ _ _ _ Hk0 Hp).
Qed.

Lemma check_entry_copies (env : Environment) (alarms cds : Py.dict)
    (details details' : details_t) (cfg0 cfg cfg' : gmap string Py.value)
    (entry : Py.value * Py.value) (original target : string) :
  agree cfg0 cfg -> (original, target) ∈ redirect ->
  cfg !! original = cfg0 !! original \/ cfg !! original = cfg0 !! target ->
  check_entry env alarms cds (details, cfg) entry = Ok (details', cfg') ->
  cfg' !! original = cfg0 !! original \/ cfg' !! original = cfg0 !! target.
Proof.
  destruct entry as [key value]. intros Hagree Hred Hinv Hrun.
  apply check_entry_inv in Hrun
    as [(_ & _ & ->)|(_ & U & defaults & _ & Hrun & _)]; [exact Hinv|].
  apply apply_redirect_config in Hrun as [_ Hcopy].
  specialize (Hcopy original target Hred).
  destruct (decide (original ∈ remove_ignored U)) as [_|_].
  - destruct Hcopy as [_ ->]. right. apply Hagree;
      intros ->; unfold redirect in Hred; set_solver.
  - now rewrite Hcopy.
Qed.

End ResolverSteps.



(** X8: every default in the output of [_get_check_details] is the value
    the name has in the configuration the call was given. *)
Theorem documented_defaults_are_configured {jinja : Jinja2}
    {order : SetOrder} (rendered_yaml : Py.value)
    (cfg cfg' : gmap string Py.value) (env : Environment)
    (details : details_t) (key : Py.value) (alarm : gmap string DetailValue)
    (name : string) (v : Py.value) :
  _get_check_details rendered_yaml cfg env = Py.Ok (details, cfg') ->
  (key, alarm) ∈ details ->
  alarm !! name = Some (Default v) ->
  cfg !! name = Some v.
Proof.
  intros Hrun Hin Hname.
  apply get_check_details_inv in Hrun as (alarms & cds & _ & Hloop).
  revert key alarm name v Hin Hname.
  apply (check_entries_invariant
           (fun s => agree cfg (snd s)
                     /\ forall (k : Py.value)
                               (alarm : gmap string DetailValue)
                               (name : string) (v : Py.value),
                          (k, alarm) ∈ fst s ->
                          alarm !! name = Some (Default v) ->
                          cfg !! name = Some v)
           env alarms cds (alarms ++ cds)%list)
    with (state := ([], cfg)) (state' := (details, cfg'));
    [| |exact Hloop].
  - intros [d c] [d' c'] entry _ [Hagree HP] Hstep. cbn [fst snd] in *. split.
    + eapply agree_trans; [exact Hagree|].
      eapply check_entry_agree; eassumption.
    + eapply check_entry_sound; eassumption.
  - cbn [fst snd]. split; [apply agree_refl|].
    intros k alarm name v Hin. now apply elem_of_nil in Hin.
Qed.

Lemma documented_defaults_are_configured_witness :
  disk_config !! "maas_disk_target" = Some (Py.Str "/").
Proof.
  apply (documented_defaults_are_configured (jinja := one_name_engine)
           (order := elements_order) disk_check disk_config disk_config_after
           no_environment disk_details (Py.Str "_check_variables")
           {["maas_disk_target" := Default (Py.Str "/")]}).
  - vm_compute. reflexivity.
  - apply elem_of_cons. right. apply elem_of_cons. left. reflexivity.
  - reflexivity.
Defined.

(** X9: [_get_check_details] changes [config_variables] at the two
    redirected names only, and there it leaves the value or puts the
    value of the redirect target. *)
Theorem config_changes_at_redirected_names {jinja : Jinja2}
    {order : SetOrder} (rendered_yaml : Py.value)
    (cfg cfg' : gmap string Py.value) (env : Environment)
    (details : details_t) :
  _get_check_details rendered_yaml cfg env = Py.Ok (details, cfg') ->
  (forall name, name ≠ "warning_threshold" -> name ≠ "critical_threshold" ->
                cfg' !! name = cfg !! name)
  /\ forall original target,
       (original, target) ∈ redirect ->
       cfg' !! original = cfg !! original
       \/ cfg' !! original = cfg !! target.
Proof.
  intros Hrun.
  apply get_check_details_inv in Hrun as (alarms & cds & _ & Hloop).
  apply (check_entries_invariant
           (fun s => agree cfg (snd s)
                     /\ forall original target,
                          (original, target) ∈ redirect ->
                          snd s !! original = cfg !! original
                          \/ snd s !! original = cfg !! target)
           env alarms cds (alarms ++ cds)%list)
    with (state := ([], cfg)) (state' := (details, cfg'));
    [| |exact Hloop].
  - intros [d c] [d' c'] entry _ [Hagree HP] Hstep. cbn [fst snd] in *. split.
    + eapply agree_trans; [exact Hagree|].
      eapply check_entry_agree; eassumption.
    + intros original target Hred.
      eapply check_entry_copies; try eassumption. now apply HP.
  - cbn [snd]. split; [apply agree_refl|]. intros original target _. now left.
Qed.

Lemma config_changes_at_redirected_names_witness :
  disk_config_after !! "maas_disk_target" = disk_config !! "maas_disk_target".
Proof.
  refine (proj1 (config_changes_at_redirected_names (jinja := one_name_engine)
            (order := elements_order) disk_check disk_config disk_config_after
            no_environment disk_details _) "maas_disk_target" _ _).
  - vm_compute. reflexivity.
  - discriminate.
  - discriminate.
Defined.

Section OutputKeys.
Context {jinja : Jinja2} {order : SetOrder}.
Import Py.

Lemma details_key_not_skipped (cds : Py.dict) (key : Py.value) :
  skipped_key key = false -> skipped_key (details_key cds key) = false.
Proof. unfold details_key. now destruct (dict_mem cds key). Qed.

Lemma check_entry_keys (env : Environment) (alarms cds : Py.dict)
    (details details' : details_t) (cfg cfg' : gmap string Py.value)
    (key value k : Py.value) (alarm : gmap string DetailValue) :
  check_entry env alarms cds (details, cfg) (key, value)
  = Ok (details', cfg') ->
  (k, alarm) ∈ details' ->
  (exists alarm0, (k, alarm0) ∈ details)
  \/ (skipped_key key = false /\ k = details_key cds key).
Proof.
  intros Hrun Hin.
  apply check_entry_inv in Hrun
    as [(_ & -> & _)|(Hskip & U & defaults & _ & _ & _ & Hout)]; [eauto|].
  destruct Hout as [(_ & _ & ->)|[criteria ->]]; [eauto|].
  apply dict_set_keys in Hin as [->|Hold]; auto.
Qed.

Lemma alarm_entry (alarms cds : Py.dict) (key value : Py.value) :
  distinct_keys cds = true ->
  (key, value) ∈ (alarms ++ cds)%list -> dict_mem cds key = false ->
  (key, value) ∈ alarms.
Proof.
  intros Hcds Hin Hmem. apply elem_of_app in Hin as [Hin|Hin]; [exact Hin|].
  rewrite (dict_mem_elem cds key value Hin) in Hmem; [discriminate|].
  eapply distinct_keys_hashable; eassumption.
Qed.

Lemma distinct_keys_split {A : Type} (before after : list (Py.value * A))
    (key k : Py.value) (x y : A) :
  distinct_keys (before ++ (key, x) :: after) = true ->
  (k, y) ∈ (before ++ after)%list -> key_eqb k key = false.
Proof.
  induction before as [|[k1 v1] before IH]; cbn [app distinct_keys];
    intros Hd Hin.
  - apply andb_true_iff in Hd as [Hd Hrest].
    apply andb_true_iff in Hd as [_ Hfresh].
    destruct (key_eqb k key) eqn:Heq; [|reflexivity].
    rewrite <- (dict_mem_elem after k y Hin) in Hfresh
      by (eapply distinct_keys_hashable; eassumption).
    unfold dict_mem in Hfresh. rewrite (dict_get_key after k key Heq) in Hfresh.
    now destruct (dict_get after key).
  - apply andb_true_iff in Hd as [Hd Hrest].
    apply andb_true_iff in Hd as [Hk1 Hfresh].
    apply elem_of_cons in Hin as [[= -> ->]|Hin]; [|now apply IH].
    destruct (key_eqb k1 key) eqn:Heq; [|reflexivity].
    assert (dict_mem (before ++ (key, x) :: after) key = true) as Hmem.
    { apply (dict_mem_elem _ key x).
      - apply elem_of_app. right. apply elem_of_cons. now left.
      - eapply (distinct_keys_hashable _ key x Hrest).
        apply elem_of_app. right. apply elem_of_cons. now left. }
    unfold dict_mem in Hfresh, Hmem.
    rewrite (dict_get_key _ k1 key Heq) in Hfresh.
    now destruct (dict_get (before ++ (key, x) :: after) key).
Qed.

End OutputKeys.

(** X10: every key of the output of [_get_check_details] is
    [_check_variables] or the name of an alarm that is no key of the
    check-wide details; the keys of the check-wide details themselves,
    [file] and [url] never are keys of the output. *)
Theorem output_keys_are_alarms_or_aggregate {jinja : Jinja2}
    {order : SetOrder} (rendered_yaml : Py.value)
    (cfg cfg' : gmap string Py.value) (env : Environment)
    (details : details_t) (alarms cds : Py.dict) (key : Py.value)
    (alarm : gmap string DetailValue) :
  well_formed rendered_yaml = true ->
  check_items rendered_yaml = Py.Ok (alarms, cds) ->
  _get_check_details rendered_yaml cfg env = Py.Ok (details, cfg') ->
  (key, alarm) ∈ details ->
  skipped_key key = false
  /\ (key = Py.Str "_check_variables"
      \/ ((exists criteria, (key, criteria) ∈ alarms)
          /\ Py.dict_mem cds key = false)).
Proof.
  intros Hwf Hitems Hrun Hin.
  destruct (check_items_distinct _ _ _ Hwf Hitems) as [_ Hcds].
  pose proof (get_check_details_ok _ _ _ _ _ _ _ Hitems Hrun) as Hloop.
  revert key alarm Hin.
  apply (check_entries_invariant
           (fun s => forall (k : Py.value) (alarm : gmap string DetailValue),
                (k, alarm) ∈ fst s ->
                skipped_key k = false
                /\ (k = Py.Str "_check_variables"
                    \/ ((exists criteria, (k, criteria) ∈ alarms)
                        /\ Py.dict_mem cds k = false)))
           env alarms cds (alarms ++ cds)%list)
    with (state := ([], cfg)) (state' := (details, cfg'));
    [| |exact Hloop].
  - intros [d c] [d' c'] [k0 v0] Hentry HP Hstep k alarm Hin. cbn [fst] in *.
    destruct (check_entry_keys _ _ _ _ _ _ _ _ _ _ _ Hstep Hin)
      as [[alarm0 Hold]|[Hskip ->]]; [now apply (HP k alarm0)|].
    split; [now apply details_key_not_skipped|].
    unfold details_key. destruct (Py.dict_mem cds k0) eqn:Hmem; [now left|].
    right. split; [|exact Hmem]. exists v0. now apply (alarm_entry alarms cds).
  - cbn [fst]. intros k alarm Hin. now apply elem_of_nil in Hin.
Qed.

Lemma output_keys_are_alarms_or_aggregate_witness :
  skipped_key (Py.Str "disk") = false
  /\ (Py.Str "disk" = Py.Str "_check_variables"
      \/ ((exists criteria,
             (Py.Str "disk", criteria)
             ∈ [(Py.Str "disk", Py.Str "warning_threshold")])
          /\ Py.dict_mem
               [(Py.Str "file", Py.Str "disk_path");
                (Py.Str "target", Py.Str "maas_disk_target")]
               (Py.Str "disk") = false)).
Proof.
  apply (output_keys_are_alarms_or_aggregate (jinja := one_name_engine)
           (order := elements_order) disk_check disk_config disk_config_after
           no_environment disk_details
           [(Py.Str "disk", Py.Str "warning_threshold")]
           [(Py.Str "file", Py.Str "disk_path");
            (Py.Str "target", Py.Str "maas_disk_target")]
           (Py.Str "disk")
           {["maas_filesystem_warning_threshold" := Default (Py.Int 80);
             "_criteria" := Criteria []]}).
  - reflexivity.
  - reflexivity.
  - vm_compute. reflexivity.
  - apply elem_of_cons. left. reflexivity.
Defined.



(** X12: a default of a check-wide detail is filed under
    [_check_variables]: where a detail that is not skipped has a surviving
    free variable and [_get_check_details] returns, the dictionary under
    [_check_variables] holds the variable with its configured value. *)
Theorem check_wide_defaults_merged {jinja : Jinja2} {order : SetOrder}
    (rendered_yaml : Py.value) (cfg cfg' : gmap string Py.value)
    (env : Environment) (details : details_t) (alarms cds : Py.dict)
    (key value : Py.value) (undeclared : gset string) (name : string) :
  well_formed rendered_yaml = true ->
  check_items rendered_yaml = Py.Ok (alarms, cds) ->
  _get_check_details rendered_yaml cfg env = Py.Ok (details, cfg') ->
  (key, value) ∈ cds ->
  skipped_key key = false ->
  find_undeclared_variables env value = Py.Ok undeclared ->
  name ∈ surviving undeclared ->
  name ≠ "_criteria" ->
  exists aggregate v,
    cfg !! name = Some v
    /\ Py.dict_get details (Py.Str "_check_variables") = Some aggregate
    /\ aggregate !! name = Some (Default v).
Proof.
  intros Hwf Hitems Hrun Hin Hskip Hfind Hname Hcrit.
  destruct (check_items_distinct _ _ _ Hwf Hitems) as [_ Hcds].
  pose proof (get_check_details_ok _ _ _ _ _ _ _ Hitems Hrun) as Hloop.
  pose proof (distinct_keys_hashable cds key value Hcds Hin) as Hhash.
  assert ((key, value) ∈ (alarms ++ cds)%list) as Hentry
      by (apply elem_of_app; now right).
  destruct (check_entries_file _ _ _ _ _ _ _ _ _ _ _ _ Hloop Hentry Hskip Hhash
              Hfind Hname Hcrit) as (aggregate & v & Hv & Hget & Hfiled).
  unfold details_key in Hget.
  rewrite (dict_mem_elem cds key value Hin Hhash) in Hget. eauto.
Qed.

Lemma check_wide_defaults_merged_witness :
  exists aggregate v,
    disk_config !! "maas_disk_target" = Some v
    /\ Py.dict_get disk_details (Py.Str "_check_variables") = Some aggregate
    /\ aggregate !! "maas_disk_target" = Some (Default v).
Proof.
  apply (check_wide_defaults_merged (jinja := one_name_engine)
           (order := elements_order) disk_check disk_config disk_config_after
           no_environment disk_details
           [(Py.Str "disk", Py.Str "warning_threshold")]
           [(Py.Str "file", Py.Str "disk_path");
            (Py.Str "target", Py.Str "maas_disk_target")]
           (Py.Str "target") (Py.Str "maas_disk_target")
           {["maas_disk_target"]}).
  - reflexivity.
  - reflexivity.
  - vm_compute. reflexivity.
  - apply elem_of_cons. right. apply elem_of_cons. left. reflexivity.
  - reflexivity.
  - reflexivity.
  - apply (bool_decide_unpack _). vm_compute. exact I.
  - discriminate.
Defined.
